(** * transformers_multiclass_classification.py: a shallow embedding

    The script fine-tunes DistilBERT on the news-aggregator corpus.  Its own
    logic is the preprocessing of the category column, the train/test split,
    the dataset wrapper and its loader, the shape of the classification head,
    the training and accuracy loops and the order of the top-level
    statements.  Those are embedded below; the behaviour of pandas and torch
    calls is written out next to each call that uses it.
    Floating-point scores are represented by exact integers (only their order
    matters to argmax) and the final accuracy by an exact rational. *)

From Stdlib Require Import ZArith QArith.
From stdpp Require Import gmap strings list fin_maps.

#[local] Set Warnings "-clear-no-such-hyp".

Close Scope Q_scope.
Open Scope string_scope.
Open Scope list_scope.
Open Scope nat_scope.

(** ** Python exceptions and the result of a fallible call *)

Inductive PyError : Type :=
| KeyError (key : string)
| KeyErrorIndex (label : nat)
| IndexError
| RuntimeError
| ValueError
| ZeroDivisionError.

Inductive result (A : Type) : Type :=
| Ok (a : A)
| Raise (e : PyError).
Arguments Ok {A} a.
Arguments Raise {A} e.

Definition rbind {A B} (r : result A) (k : A → result B) : result B :=
  match r with
  | Ok a => k a
  | Raise e => Raise e
  end.

Declare Scope py_scope.
Delimit Scope py_scope with py.
Notation "'do' x <- r ; k" := (rbind r (λ x, k))
  (at level 10, x name, r at level 100, k at level 200) : py_scope.
Open Scope py_scope.

(** [Series.apply f]: [f] is called on the elements in order and the first
    exception leaves the call. *)
Fixpoint apply_series {A B} (f : A → result B) (xs : list A) : result (list B) :=
  match xs with
  | [] => Ok []
  | x :: xs' =>
      do y <- f x;
      do ys <- apply_series f xs';
      Ok (y :: ys)
  end.

(** ** Preprocessing of the CATEGORY column (lines 118-137) *)

Definition my_dict : gmap string string :=
  <["e" := "Entertainment"]>
    (<["b" := "Business"]>
       (<["t" := "Science"]>
          (<["m" := "Health"]> ∅))).

(** [my_dict[x]] raises [KeyError] on an absent key. *)
Definition update_cat (x : string) : result string :=
  match my_dict !! x with
  | Some name => Ok name
  | None => Raise (KeyError x)
  end.

(** [df['CATEGORY'].apply(lambda x: update_cat(x))] *)
Definition apply_update_cat (codes : list string) : result (list string) :=
  apply_series update_cat codes.

(** The module-level dictionary [encode_dict] starts empty and is mutated by
    [encode_cat]; the store is threaded explicitly. *)
Definition encode_dict : gmap string nat := ∅.

Definition encode_cat (x : string) (d : gmap string nat) : nat * gmap string nat :=
  let d' := if decide (x ∈ dom d) then d else <[x := size d]> d in
  (size d', d').

(** [df['CATEGORY'].apply(lambda x: encode_cat(x))] *)
Fixpoint apply_encode_cat (xs : list string) (d : gmap string nat)
  : list nat * gmap string nat :=
  match xs with
  | [] => ([], d)
  | x :: xs' =>
      let '(v, d1) := encode_cat x d in
      let '(vs, d2) := apply_encode_cat xs' d1 in
      (v :: vs, d2)
  end.

(** Lines 128-137 on the column of category codes: the new CATEGORY column,
    the ENCODE_CAT column and the final state of [encode_dict]. *)
Definition preprocess (codes : list string)
  : result (list string * list nat * gmap string nat) :=
  do names <- apply_update_cat codes;
  let '(labels, d) := apply_encode_cat names encode_dict in
  Ok (names, labels, d).

(** ** The train/test split (lines 207-209) *)

(** A dataframe is its rows in order, each with its index label. *)
Abbreviation DataFrame R := (list (nat * R)).

(** [pd.read_csv] without [index_col] labels the rows 0, 1, 2, ... *)
Definition range_index {R} (rows : list R) : DataFrame R :=
  imap (λ i r, (i, r)) rows.

Definition index {R} (df : DataFrame R) : list nat := df.*1.
Definition values {R} (df : DataFrame R) : list R := df.*2.

(** Python's [round]: to the nearest integer, ties to the even one. *)
Definition py_round (q : Q) : Z :=
  let f := (Qnum q / Z.pos (Qden q))%Z in
  match (2 * (Qnum q mod Z.pos (Qden q)) ?= Z.pos (Qden q))%Z with
  | Lt => f
  | Gt => (f + 1)%Z
  | Eq => if Z.even f then f else (f + 1)%Z
  end.

Definition train_size : Q := 8 # 10.

(** The number of rows a sample takes: [round(frac * len(df))]; the float
    [frac] is taken as the exact decimal. *)
Definition sample_count (frac : Q) (len : nat) : nat :=
  Z.to_nat (py_round (frac * inject_Z (Z.of_nat len))%Q).

(** [df.sample(frac=..., random_state=200)] takes that many rows without
    replacement, in the order drawn by the generator, and keeps their index
    labels.  The generator's draw is the argument [order], a permutation of
    the positions of [df]. *)
Definition sample {R} (frac : Q) (order : list nat) (df : DataFrame R) : DataFrame R :=
  let n := sample_count frac (length df) in
  omap (λ p, df !! p) (take n order).

(** [reset_index(drop=True)] *)
Definition reset_index {R} (df : DataFrame R) : DataFrame R :=
  range_index (values df).

(** [df.drop(labels)]: every label has to be present, the rows carrying one
    of them are removed. *)
Definition drop_labels {R} (labels : list nat) (df : DataFrame R) : result (DataFrame R) :=
  match list_find (λ l, l ∉ index df) labels with
  | Some (_, l) => Raise (KeyErrorIndex l)
  | None => Ok (filter (λ row, row.1 ∉ labels) df)
  end.

Definition train_dataset {R} (order : list nat) (df : DataFrame R) : DataFrame R :=
  reset_index (sample train_size order df).

Definition test_dataset {R} (order : list nat) (df : DataFrame R) : result (DataFrame R) :=
  do d <- drop_labels (index (train_dataset order df)) df;
  Ok (reset_index d).

(** ** Tensors *)

(** A tensor is its shape and its elements in row-major order. *)
Record Tensor : Type := { shape : list nat; data : list Z }.

Definition numel (s : list nat) : nat := foldr Nat.mul 1 s.

(** [t.squeeze()] removes every dimension of size one. *)
Definition squeeze (t : Tensor) : Tensor :=
  {| shape := filter (λ d, d ≠ 1) (shape t); data := data t |}.

(** Position of the first maximal element. *)
Fixpoint argmax_from (best_i : nat) (best : Z) (i : nat) (xs : list Z) : nat :=
  match xs with
  | [] => best_i
  | x :: xs' =>
      if (best <? x)%Z then argmax_from i x (S i) xs'
      else argmax_from best_i best (S i) xs'
  end.

Definition argmax (xs : list Z) : nat :=
  match xs with
  | [] => 0
  | x :: xs' => argmax_from 0 x 1 xs'
  end.

(** The index half of [torch.max(t, dim=1)]: dimension 1 has to exist and to
    be non-empty; it is reduced to the position of its maximum. *)
Definition torch_max_dim1 (t : Tensor) : result Tensor :=
  match shape t with
  | d0 :: d1 :: rest =>
      if decide (d1 = 0) then Raise IndexError
      else
        let inner := numel rest in
        Ok {| shape := d0 :: rest;
              data :=
                flat_map (λ i,
                  map (λ r,
                    Z.of_nat (argmax
                      (map (λ j, nth ((i * d1 + j) * inner + r) (data t) 0%Z)
                           (seq 0 d1))))
                    (seq 0 inner))
                  (seq 0 d0) |}
  | _ => Raise IndexError
  end.

Definition count_where (P : nat → bool) (n : nat) : nat :=
  length (filter (λ p, P p = true) (seq 0 n)).

(** [(big_idx == targets).sum().item()] for the rank-one [targets] of a batch:
    the comparison broadcasts along the last dimension of [big_idx]. *)
Definition eq_sum (big_idx : Tensor) (targets : list Z) : result nat :=
  let B := length targets in
  let L := default 1 (last (shape big_idx)) in
  let idx := data big_idx in
  if decide (L = B) then
    Ok (count_where (λ p, (nth p idx 0 =? nth (p mod B) targets 0)%Z) (length idx))
  else if decide (B = 1) then
    Ok (count_where (λ p, (nth p idx 0 =? nth 0 targets 0)%Z) (length idx))
  else if decide (L = 1) then
    Ok (count_where (λ p, (nth (p / B) idx 0 =? nth (p mod B) targets 0)%Z)
          (length idx * B))
  else Raise RuntimeError.

(** ** Batches and the data loader (lines 221-232) *)

(** What the loader yields: [ids] and [mask] of shape (B, MAX_LEN) and
    [targets] of shape (B). *)
Record Batch : Type :=
  { ids : list (list Z); mask : list (list Z); targets : list Z }.

Definition MAX_LEN : nat := 512.
Definition TRAIN_BATCH_SIZE : nat := 4.
Definition VALID_BATCH_SIZE : nat := 2.
Definition EPOCHS : nat := 1.

Inductive PyVal : Type :=
| PyInt (z : Z)
| PyBool (b : bool).

Definition train_params : gmap string PyVal :=
  <["batch_size" := PyInt (Z.of_nat TRAIN_BATCH_SIZE)]>
    (<["shuffle" := PyBool true]>
       (<["num_workers" := PyInt 0]> ∅)).

Definition test_params : gmap string PyVal :=
  <["batch_size" := PyInt (Z.of_nat VALID_BATCH_SIZE)]>
    (<["shuffle" := PyBool true]>
       (<["num_workers" := PyInt 0]> ∅)).

(** The settings of a [DataLoader]; a keyword that is not passed keeps the
    constructor's default ([batch_size=1], [shuffle=False], [num_workers=0]). *)
Record DataLoader : Type :=
  { batch_size : Z; shuffle : bool; num_workers : Z }.

(** [DataLoader(dataset, **params)] *)
Definition DataLoader_init (params : gmap string PyVal) : DataLoader :=
  {| batch_size := match params !! "batch_size" with Some (PyInt z) => z | _ => 1%Z end;
     shuffle := match params !! "shuffle" with Some (PyBool b) => b | _ => false end;
     num_workers := match params !! "num_workers" with Some (PyInt z) => z | _ => 0%Z end |}.

Definition training_loader : DataLoader := DataLoader_init train_params.
Definition testing_loader : DataLoader := DataLoader_init test_params.

(** Iterating a loader cuts the (shuffled) examples into consecutive batches
    of [batch_size]; the last batch keeps what is left ([drop_last] is off). *)
Fixpoint batches_from {A} (bs : nat) (cur : list A) (xs : list A) : list (list A) :=
  match xs with
  | [] => match cur with [] => [] | _ => [reverse cur] end
  | x :: xs' =>
      if decide (length (x :: cur) = bs) then reverse (x :: cur) :: batches_from bs [] xs'
      else batches_from bs (x :: cur) xs'
  end.

(** One example of a [Triage] dataset: token ids, attention mask, target. *)
Definition Example : Type := list Z * list Z * Z.

(** The default collate function stacks the fields of the examples. *)
Definition collate (exs : list Example) : Batch :=
  {| ids := (λ e, e.1.1) <$> exs; mask := (λ e, e.1.2) <$> exs; targets := (λ e, e.2) <$> exs |}.

Definition iterate (dl : DataLoader) (shuffled : list Example) : list Batch :=
  collate <$> batches_from (Z.to_nat (batch_size dl)) [] shuffled.

(** ** The network (lines 259-270) *)

Record Linear : Type := { in_features : nat; out_features : nat }.

(** The attributes set by [DistillBERTClass.__init__]: the checkpoint of the
    encoder [l1], the probability of the dropout [l2], the dense layer [l3]. *)
Record DistillBERTClass : Type :=
  { l1 : string; l2 : Q; l3 : Linear }.

Definition DistillBERTClass_init : DistillBERTClass :=
  {| l1 := "distilbert-base-uncased";
     l2 := 3 # 10;
     l3 := {| in_features := 768; out_features := 1 |} |}.

(** Line 169: the checkpoint the tokenizer is loaded from. *)
Definition tokenizer_checkpoint : string := "distilbert-base-cased".

(** Width of the hidden states of a DistilBERT base encoder. *)
Definition distilbert_dim : nat := 768.

(** [output_1[0]]: one hidden state per token of each sequence. *)
Definition encoder_shape (ids_shape : list nat) : result (list nat) :=
  match ids_shape with
  | [B; L] => Ok [B; L; distilbert_dim]
  | _ => Raise RuntimeError
  end.

(** A [Linear] layer acts on the last dimension, which has to be [in_features]. *)
Definition Linear_shape (lin : Linear) (s : list nat) : result (list nat) :=
  match last s with
  | Some d =>
      if decide (d = in_features lin) then Ok (removelast s ++ [out_features lin])
      else Raise RuntimeError
  | None => Raise RuntimeError
  end.

(** Shape of the value of [forward]; the dropout keeps the shape. *)
Definition forward_shape (m : DistillBERTClass) (ids_shape : list nat) : result (list nat) :=
  do output_1 <- encoder_shape ids_shape;
  let output_2 := output_1 in
  Linear_shape (l3 m) output_2.

(** ** Training and validation (lines 302-350) *)

(** The mutable state the two loops act on: the parameters of the model and
    its mode, the global gradient mode, the accumulated gradients and the
    state of the optimizer. *)
Record World (W O : Type) : Type :=
  { weights : W;
    training : bool;
    grad_enabled : bool;
    grad : option W;
    opt_state : O }.
Arguments weights {W O} _.
Arguments training {W O} _.
Arguments grad_enabled {W O} _.
Arguments grad {W O} _.
Arguments opt_state {W O} _.

Section Loops.
Context {W O : Type}.

(** [model(ids, mask)] as a function of the parameters and of the mode. *)
Variable forward : W → bool → Batch → Tensor.
(** [loss_function(outputs, targets)] followed by [loss.backward()]: the
    gradient of the loss, or the exception of the loss. *)
Variable loss_backward : W → Tensor → list Z → result W.
(** [optimizer.step()] *)
Variable adam_step : O → W → W → O * W.

Fixpoint train_loop (w : World W O) (loader : list Batch) : result unit * World W O :=
  match loader with
  | [] => (Ok (), w)
  | data :: rest =>
      let outputs := squeeze (forward (weights w) (training w) data) in
      let w1 := {| weights := weights w; training := training w;
                   grad_enabled := grad_enabled w; grad := None;
                   opt_state := opt_state w |} in
      match loss_backward (weights w) outputs (targets data) with
      | Raise e => (Raise e, w1)
      | Ok g =>
          let '(o, ws) := adam_step (opt_state w) (weights w) g in
          train_loop {| weights := ws; training := training w;
                        grad_enabled := grad_enabled w; grad := Some g;
                        opt_state := o |} rest
      end
  end.

Definition train (w : World W O) (loader : list Batch) : result unit * World W O :=
  train_loop {| weights := weights w; training := true;
                grad_enabled := grad_enabled w; grad := grad w;
                opt_state := opt_state w |} loader.

Fixpoint valid_loop (w : World W O) (loader : list Batch) (n_correct total : nat)
  : result (nat * nat) :=
  match loader with
  | [] => Ok (n_correct, total)
  | data :: rest =>
      let outputs := squeeze (forward (weights w) (training w) data) in
      do big_idx <- torch_max_dim1 outputs;
      let total := total + length (targets data) in
      do c <- eq_sum big_idx (targets data);
      valid_loop w rest (n_correct + c) total
  end.

(** [(n_correct*100.0)/total] *)
Definition percentage (n_correct total : nat) : result Q :=
  if decide (total = 0) then Raise ZeroDivisionError
  else Ok (inject_Z (Z.of_nat n_correct * 100) / inject_Z (Z.of_nat total))%Q.

Definition valid (w : World W O) (loader : list Batch) : result Q * World W O :=
  (* model.eval() *)
  let w1 := {| weights := weights w; training := false;
               grad_enabled := grad_enabled w; grad := grad w;
               opt_state := opt_state w |} in
  (* with torch.no_grad(): the mode is restored when the block is left *)
  let w2 := {| weights := weights w1; training := training w1;
               grad_enabled := false; grad := grad w1;
               opt_state := opt_state w1 |} in
  let r := valid_loop w2 loader 0 0 in
  let w3 := {| weights := weights w2; training := training w2;
               grad_enabled := grad_enabled w1; grad := grad w2;
               opt_state := opt_state w2 |} in
  (do ct <- r; percentage ct.1 ct.2, w3).

End Loops.

(** ** The statements of the script, in order *)

Inductive Call : Type :=
| ReadCsv (path sep : string) (names : list string)
| FromPretrained (class checkpoint : string)
| Print (text : string)
| Train (epoch : nat)
| Valid
| TorchSave (path : string)
| SaveVocabulary (path : string).

Definition tab : string := String (Ascii.ascii_of_nat 9) "".

Definition output_model_file : string := "./models/pytorch_distilbert_news.bin".
Definition output_vocab_file : string := "./models/vocab_distilbert_news.bin".

(** The calls with an effect outside the process that the top-level
    statements make, stage by stage. *)

(** Line 111 *)
Definition calls_read : list Call :=
  [ ReadCsv "./data/newsCorpora.csv" tab
      ["ID"; "TITLE"; "URL"; "PUBLISHER"; "CATEGORY"; "STORY"; "HOSTNAME"; "TIMESTAMP"] ].

(** Line 169 *)
Definition calls_tokenizer : list Call :=
  [ FromPretrained "DistilBertTokenizer" tokenizer_checkpoint ].

(** Lines 212-214 *)
Definition calls_sizes : list Call :=
  [ Print "FULL Dataset: {}"; Print "TRAIN Dataset: {}"; Print "TEST Dataset: {}" ].

(** Line 274 *)
Definition calls_model : list Call :=
  [ FromPretrained "DistilBertModel" (l1 DistillBERTClass_init) ].

(** Lines 354-357 *)
Definition calls_validation : list Call :=
  [ Print "This is the validation section to print the accuracy and see how it performs";
    Print "Here we are leveraging on the dataloader crearted for the validation dataset, the approcah is using more of pytorch";
    Valid ].

(** Lines 358-383 *)
Definition calls_saving : list Call :=
  [ Print "Accuracy on test data = %0.2f%%";
    TorchSave output_model_file;
    SaveVocabulary output_vocab_file;
    Print "All files saved";
    Print "This tutorial is completed" ].

(** The calls of a run that no exception stops, from the first line to the
    last; [for epoch in range(EPOCHS)] makes one call of [train] per epoch.
    What a run calls when a stage raises is [run_script], below. *)
Definition script : list Call :=
  calls_read ++ calls_tokenizer ++ calls_sizes ++ calls_model
  ++ (Train <$> seq 0 EPOCHS)
  ++ calls_validation ++ calls_saving.


Definition loads_checkpoint (c : Call) : bool :=
  match c with FromPretrained _ _ => true | _ => false end.



(** ** Accuracy as the specification words it *)

(** The scores of example [i] in a batch of outputs with [C] scores per
    example. *)
Definition example_scores (C : nat) (outputs : Tensor) (i : nat) : list Z :=
  map (λ j, nth (i * C + j) (data outputs) 0%Z) (seq 0 C).

(** The number of examples of a batch whose predicted class index, the
    argmax of their scores, equals their target. *)
Definition batch_correct (C : nat) (outputs : Tensor) (tgts : list Z) : nat :=
  count_where (λ i, (Z.of_nat (argmax (example_scores C outputs i)) =? nth i tgts 0)%Z)
    (length tgts).

Definition correct_examples {W} (forward : W → bool → Batch → Tensor) (ws : W)
    (C : nat) (loader : list Batch) : nat :=
  sum_list ((λ b, batch_correct C (forward ws false b) (targets b)) <$> loader).

Definition total_examples (loader : list Batch) : nat :=
  sum_list ((λ b, length (targets b)) <$> loader).

(** Every batch comes out of [squeeze] as one row of [C] scores per example. *)
Definition matrix_outputs {W} (forward : W → bool → Batch → Tensor) (ws : W)
    (C : nat) (loader : list Batch) : Prop :=
  ∀ b, b ∈ loader →
    targets b ≠ [] ∧ shape (squeeze (forward ws false b)) = [length (targets b); C].

(** ** A small network to run the loops on *)

(** Three parameters, which are the scores given to the three token
    positions of every sequence: an output of shape (B, 3, 1), as
    [DistillBERTClass.forward] returns for sequences of three tokens. *)
Definition three_token_scores (ws : Z * Z * Z) (tr : bool) (b : Batch) : Tensor :=
  {| shape := [length (targets b); 3; 1];
     data := flat_map (λ _, [ws.1.1; ws.1.2; ws.2]) (targets b) |}.

Definition initial_world : World (Z * Z * Z) unit :=
  {| weights := (1, 5, 2)%Z; training := true; grad_enabled := true;
     grad := None; opt_state := () |}.

Definition four_examples : list Example :=
  [([101; 7; 102], [1; 1; 1], 1); ([101; 8; 102], [1; 1; 1], 2);
   ([101; 9; 102], [1; 1; 1], 1); ([101; 7; 102], [1; 1; 1], 1)]%Z.

Definition three_examples : list Example := take 3 four_examples.

(** ** The dataset wrapper (lines 173-201) *)

(** A Python [str] is a sequence of characters; which of them are whitespace
    is the predicate [isspace], and [space] is the character of [" "]. *)
Section Text.
Context {Char : Type}.
Variable isspace : Char → bool.
Variable space : Char.

(** [s.split()]: the maximal runs of characters that are not whitespace;
    [cur] is the run being read, last character first. *)
Fixpoint split_from (cur : list Char) (s : list Char) : list (list Char) :=
  match s with
  | [] => match cur with [] => [] | _ => [reverse cur] end
  | c :: s' =>
      if isspace c then
        match cur with
        | [] => split_from [] s'
        | _ => reverse cur :: split_from [] s'
        end
      else split_from (c :: cur) s'
  end.

Definition split (s : list Char) : list (list Char) := split_from [] s.

(** [sep.join(words)] *)
Fixpoint join (sep : list Char) (words : list (list Char)) : list Char :=
  match words with
  | [] => []
  | [w] => w
  | w :: ws => w ++ sep ++ join sep ws
  end.

(** [" ".join(title.split())] *)
Definition normalize_title (title : list Char) : list Char :=
  join [space] (split title).

End Text.

Module Triage.
Section Dataset.
Context {Char : Type}.
Variable isspace : Char → bool.
Variable space : Char.

(** The attributes set by [__init__]; a row of the dataframe is its TITLE and
    its ENCODE_CAT, and the tokenizer is what [encode_plus] returns for a text
    and a [max_length]: the [input_ids] and the [attention_mask]. *)
Record t : Type :=
  { len : nat;
    data : DataFrame (list Char * nat);
    tokenizer : list Char → nat → list Z * list Z;
    max_len : nat }.

Definition __init__ (dataframe : DataFrame (list Char * nat))
    (tokenizer : list Char → nat → list Z * list Z) (max_len : nat) : t :=
  {| len := length dataframe; data := dataframe; tokenizer := tokenizer;
     max_len := max_len |}.

(** [self.data.TITLE[index]], [self.data.ENCODE_CAT[index]]: the row whose
    index label is [index] (the labels of a dataframe of the script are
    distinct); [KeyError] when no row carries it. *)
Definition loc (df : DataFrame (list Char * nat)) (index : nat)
  : result (list Char * nat) :=
  match list_find (λ row, row.1 = index) df with
  | Some (_, row) => Ok row.2
  | None => Raise (KeyErrorIndex index)
  end.

Definition __getitem__ (self : t) (index : nat) : result Example :=
  do row <- loc (data self) index;
  let title := normalize_title isspace space row.1 in
  let inputs := tokenizer self title (max_len self) in
  Ok (inputs.1, inputs.2, Z.of_nat row.2).

Definition __len__ (self : t) : nat := len self.

End Dataset.
End Triage.

(** The default collate function stacks the [ids] of the items, and their
    [mask]s: items of different lengths cannot be stacked. *)
Definition same_length (ls : list (list Z)) : bool :=
  match ls with
  | [] => true
  | l :: ls' => forallb (λ x, length x =? length l) ls'
  end.

Definition collate_checked (exs : list Example) : result Batch :=
  if same_length ((λ e : Example, e.1.1) <$> exs)
     && same_length ((λ e : Example, e.1.2) <$> exs)
  then Ok (collate exs)
  else Raise RuntimeError.

(** Iterating a loader over a dataset: the sampler gives the indices below
    [len(dataset)] in some [order], they are cut into batches, and the items
    of a batch are fetched and stacked when the batch is asked for. *)
Definition DataLoader_iter {Char} (isspace : Char → bool) (space : Char)
    (dl : DataLoader) (dataset : Triage.t) (order : list nat) : list (result Batch) :=
  (λ idxs, do exs <- apply_series (Triage.__getitem__ isspace space dataset) idxs;
           collate_checked exs)
    <$> batches_from (Z.to_nat (batch_size dl)) [] order.

(** [DataLoader(dataset, **params)]: with [shuffle] the constructor builds a
    random sampler, which refuses a dataset without items. *)
Definition DataLoader_new {Char} (dataset : @Triage.t Char)
    (params : gmap string PyVal) : result DataLoader :=
  if shuffle (DataLoader_init params) && (Triage.__len__ dataset =? 0)
  then Raise ValueError
  else Ok (DataLoader_init params).

(** What a [for] loop over a loader gets: the batches up to the first one
    whose fetching raises, and that exception. *)
Fixpoint fetched (l : list (result Batch)) : list Batch * option PyError :=
  match l with
  | [] => ([], None)
  | Ok b :: l' => let '(bs, e) := fetched l' in (b :: bs, e)
  | Raise e :: _ => ([], Some e)
  end.

(** ** A run of the script *)

Section Run.
Context {Char W O : Type}.
Variable isspace : Char → bool.
Variable space : Char.
(** [tokenizer.encode_plus] of the tokenizer loaded at line 169. *)
Variable tok : list Char → nat → list Z * list Z.
Variable forward : W → bool → Batch → Tensor.
Variable loss_backward : W → Tensor → list Z → result W.
Variable adam_step : O → W → W → O * W.

(** The datasets and loaders of lines 216-232. *)
Record Prepared : Type :=
  { training_set : @Triage.t Char;
    testing_set : @Triage.t Char;
    loader_of_training : DataLoader;
    loader_of_testing : DataLoader }.

(** Lines 111-232 on the TITLE and CATEGORY columns of the file and the draw
    of [df.sample]: the first exception ends the run, with the calls made so
    far. *)
Definition prepare (rows : list (list Char * string)) (order : list nat)
  : result Prepared * list Call :=
  match apply_update_cat rows.*2 with
  | Raise e => (Raise e, calls_read)
  | Ok names =>
      let df := range_index (zip rows.*1 (apply_encode_cat names encode_dict).1) in
      let train_df := train_dataset order df in
      match test_dataset order df with
      | Raise e => (Raise e, calls_read ++ calls_tokenizer)
      | Ok test_df =>
          let training := Triage.__init__ train_df tok MAX_LEN in
          let testing := Triage.__init__ test_df tok MAX_LEN in
          match DataLoader_new training train_params with
          | Raise e => (Raise e, calls_read ++ calls_tokenizer ++ calls_sizes)
          | Ok dl_train =>
              match DataLoader_new testing test_params with
              | Raise e => (Raise e, calls_read ++ calls_tokenizer ++ calls_sizes)
              | Ok dl_test =>
                  (Ok {| training_set := training; testing_set := testing;
                         loader_of_training := dl_train;
                         loader_of_testing := dl_test |},
                   calls_read ++ calls_tokenizer ++ calls_sizes)
              end
          end
      end
  end.

(** The state in which the loop of [valid] runs. *)
Definition eval_no_grad (w : World W O) : World W O :=
  {| weights := weights w; training := false; grad_enabled := false;
     grad := grad w; opt_state := opt_state w |}.

(** [train] and [valid] over a loader whose batches are fetched as the loop
    goes: an exception of the loop body on a fetched batch comes first, then
    the exception of the fetching. *)
Definition train_iter (w : World W O) (l : list (result Batch))
  : result unit * World W O :=
  let '(bs, err) := fetched l in
  let '(r, w') := train forward loss_backward adam_step w bs in
  (match r, err with
   | Ok _, Some e => Raise e
   | _, _ => r
   end, w').

Definition valid_iter (w : World W O) (l : list (result Batch))
  : result Q * World W O :=
  let '(bs, err) := fetched l in
  (match err with
   | None => (valid forward w bs).1
   | Some e => do _ <- valid_loop forward (eval_no_grad w) bs 0 0; Raise e
   end,
   (valid forward w bs).2).

(** [for epoch in range(EPOCHS): train(epoch)]; [train_orders epoch] is the
    order the sampler gives in that epoch. *)
Fixpoint run_epochs (p : Prepared) (train_orders : nat → list nat)
    (epochs : list nat) (w : World W O) : result unit * list Call * World W O :=
  match epochs with
  | [] => (Ok (), [], w)
  | epoch :: rest =>
      let '(r, w1) :=
        train_iter w (DataLoader_iter isspace space (loader_of_training p)
                        (training_set p) (train_orders epoch)) in
      match r with
      | Raise e => (Raise e, [Train epoch], w1)
      | Ok _ =>
          let '(r', t, w2) := run_epochs p train_orders rest w1 in
          (r', Train epoch :: t, w2)
      end
  end.

(** The whole script: what it returns to the interpreter (the accuracy when
    it reaches its last line, the exception otherwise), the calls it made, and
    the state of the model; [w0] is the model and the optimizer as lines
    274-281 create them. *)
Definition run_script (rows : list (list Char * string)) (order : list nat)
    (train_orders : nat → list nat) (test_order : list nat) (w0 : World W O)
  : result Q * list Call * World W O :=
  match prepare rows order with
  | (Raise e, t) => (Raise e, t, w0)
  | (Ok p, t) =>
      let '(r, calls, w1) := run_epochs p train_orders (seq 0 EPOCHS) w0 in
      match r with
      | Raise e => (Raise e, t ++ calls_model ++ calls, w1)
      | Ok _ =>
          let '(ra, w2) :=
            valid_iter w1 (DataLoader_iter isspace space (loader_of_testing p)
                             (testing_set p) test_order) in
          match ra with
          | Raise e => (Raise e, t ++ calls_model ++ calls ++ calls_validation, w2)
          | Ok acc =>
              (Ok acc, t ++ calls_model ++ calls ++ calls_validation ++ calls_saving, w2)
          end
      end
  end.

End Run.



(** ** Titles of ASCII characters, to run the dataset on *)

(** The ASCII characters that Python counts as whitespace: tab to carriage
    return, the four separators 28 to 31, and the space. *)
Definition ascii_isspace (c : Ascii.ascii) : bool :=
  let n := Ascii.nat_of_ascii c in
  ((9 <=? n) && (n <=? 13)) || ((28 <=? n) && (n <=? 32)).

Definition ascii_space : Ascii.ascii := Ascii.ascii_of_nat 32.

(** A tokenizer that gives every character its code as token id and attends
    to all of them. *)
Definition code_tokenizer (text : list Ascii.ascii) (max_length : nat) : list Z * list Z :=
  ((λ c, Z.of_nat (Ascii.nat_of_ascii c)) <$> text, (λ _, 1%Z) <$> text).

Definition two_headlines : DataFrame (list Ascii.ascii * nat) :=
  [ (7, (String.list_ascii_of_string "  Fed   holds rates ", 2));
    (3, (String.list_ascii_of_string "New phone", 3)) ].

(** A tokenizer that pads with zeros, or cuts, to [max_length]. *)
Definition padded_code_tokenizer (text : list Ascii.ascii) (max_length : nat)
  : list Z * list Z :=
  (take max_length (((λ c, Z.of_nat (Ascii.nat_of_ascii c)) <$> text)
                      ++ replicate max_length 0%Z),
   take max_length (((λ _, 1%Z) <$> text) ++ replicate max_length 0%Z)).


Definition corpus_ten : list (list Ascii.ascii * string) :=
  (λ c, (String.list_ascii_of_string "Fed  holds rates", c))
    <$> ["b"; "b"; "t"; "e"; "m"; "b"; "t"; "e"; "m"; "b"].


(** A loss whose gradient is the targets' sum on the first parameter, and a
    step that subtracts the gradient. *)
Definition toy_loss_backward (ws : Z * Z * Z) (outputs : Tensor) (tgts : list Z)
  : result (Z * Z * Z) :=
  Ok (foldr Z.add 0%Z tgts, 0%Z, 0%Z).

Definition toy_step (o : unit) (ws g : Z * Z * Z) : unit * (Z * Z * Z) :=
  (o, (ws.1.1 - g.1.1, ws.1.2 - g.1.2, ws.2 - g.2)%Z).

Definition run_toy (rows : list (list Ascii.ascii * string)) (order : list nat)
  : result Q * list Call * World (Z * Z * Z) unit :=
  run_script ascii_isspace ascii_space padded_code_tokenizer
    three_token_scores toy_loss_backward toy_step
    rows order (λ _, seq 0 (sample_count train_size (length rows)))
    (seq 0 (length rows - sample_count train_size (length rows))) initial_world.

(** * Properties *)

(** ** Category codes *)

Lemma my_dict_dom : dom my_dict = list_to_set ["e"; "b"; "t"; "m"].
Proof. unfold my_dict. rewrite !dom_insert_L, dom_empty_L. simpl. set_solver. Qed.

Lemma update_cat_unknown (x : string) :
  x ∉ ["e"; "b"; "t"; "m"] → update_cat x = Raise (KeyError x).
Proof.
  intros Hx. unfold update_cat.
  assert (my_dict !! x = None) as ->; [|done].
  apply not_elem_of_dom. rewrite my_dict_dom. set_solver.
Qed.

Lemma update_cat_known (x : string) :
  x ∈ ["e"; "b"; "t"; "m"] →
  ∃ name, my_dict !! x = Some name ∧ update_cat x = Ok name.
Proof.
  intros Hx. unfold update_cat.
  destruct (my_dict !! x) as [name|] eqn:E; [eauto|].
  apply not_elem_of_dom in E. rewrite my_dict_dom in E. set_solver.
Qed.

(** The first exception raised by the function leaves [Series.apply]. *)
Lemma apply_series_raise {A B} (f : A → result B) (xs : list A) (x : A) (e : PyError) :
  x ∈ xs → f x = Raise e →
  ∃ y e', y ∈ xs ∧ f y = Raise e' ∧ apply_series f xs = Raise e'.
Proof.
  induction xs as [|a xs IH]; intros Hin Hf; [by apply elem_of_nil in Hin|].
  simpl. destruct (f a) as [b|e0] eqn:Ea.
  - apply elem_of_cons in Hin as [->|Hin]; [congruence|].
    destruct (IH Hin Hf) as (y & e' & Hy & Hfy & ->).
    exists y, e'. split_and!; [by right|done|done].
  - exists a, e0. split_and!; [by left|done|done].
Qed.

Lemma apply_series_ok {A B} (f : A → result B) (xs : list A) :
  (∀ x, x ∈ xs → ∃ y, f x = Ok y) → ∃ ys, apply_series f xs = Ok ys ∧ length ys = length xs.
Proof.
  induction xs as [|a xs IH]; intros H; [by exists []|].
  destruct (H a) as [y Hy]; [by left|].
  destruct IH as (ys & Hys & Hlen); [intros x Hx; apply H; by right|].
  exists (y :: ys). simpl. rewrite Hy, Hys. simpl. by rewrite Hlen.
Qed.

(** C5: a category code outside e, b, t, m makes [update_cat] raise
    [KeyError], and the exception leaves the preprocessing of the column
    uncaught; on each of the four codes [update_cat] returns the name that
    [my_dict] gives it, so a column of known codes is translated in full. *)
Theorem update_cat_KeyError_or_name (codes : list string) (x : string) :
  (x ∉ ["e"; "b"; "t"; "m"] → update_cat x = Raise (KeyError x)) ∧
  (x ∈ codes → x ∉ ["e"; "b"; "t"; "m"] →
     ∃ y, y ∈ codes ∧ (y ∉ ["e"; "b"; "t"; "m"]) ∧
          apply_update_cat codes = Raise (KeyError y) ∧
          preprocess codes = Raise (KeyError y)) ∧
  (x ∈ ["e"; "b"; "t"; "m"] →
     ∃ name, my_dict !! x = Some name ∧ update_cat x = Ok name) ∧
  (Forall (λ c, c ∈ ["e"; "b"; "t"; "m"]) codes →
     ∃ names, apply_update_cat codes = Ok names ∧ length names = length codes) ∧
  update_cat "e" = Ok "Entertainment" ∧ update_cat "b" = Ok "Business" ∧
  update_cat "t" = Ok "Science" ∧ update_cat "m" = Ok "Health".
Proof.
  split_and!; try (by vm_compute).
  - apply update_cat_unknown.
  - intros Hin Hx.
    destruct (apply_series_raise update_cat codes x (KeyError x) Hin
                (update_cat_unknown x Hx)) as (y & e' & Hy & Hfy & Hap).
    assert ((y ∉ ["e"; "b"; "t"; "m"]) ∧ e' = KeyError y) as [Hny ->].
    { unfold update_cat in Hfy.
      destruct (my_dict !! y) as [n|] eqn:E; [done|]. split; [|congruence].
      apply not_elem_of_dom in E. rewrite my_dict_dom in E. set_solver. }
    exists y. split_and!; try done.
    unfold preprocess. unfold apply_update_cat in *. by rewrite Hap.
  - apply update_cat_known.
  - intros Hall. apply apply_series_ok. intros c Hc.
    rewrite Forall_forall in Hall.
    destruct (update_cat_known c (Hall c Hc)) as (name & _ & ->). eauto.
Qed.

Lemma update_cat_KeyError_or_name_witness :
  update_cat "x" = Raise (KeyError "x") ∧
  (∃ y, y ∈ ["e"; "x"; "b"] ∧ preprocess ["e"; "x"; "b"] = Raise (KeyError y)) ∧
  (∃ name, update_cat "t" = Ok name) ∧
  (∃ names, apply_update_cat ["e"; "b"; "t"; "m"; "e"] = Ok names).
Proof.
  assert ("x" ∉ ["e"; "b"; "t"; "m"]) as Hx.
  { intros H. repeat (apply elem_of_cons in H as [H|H]; [discriminate H|]).
    by apply elem_of_nil in H. }
  split_and!.
  - apply (update_cat_KeyError_or_name [] "x"), Hx.
  - destruct (update_cat_KeyError_or_name ["e"; "x"; "b"] "x") as (_ & H & _).
    destruct H as (y & Hy & _ & _ & Hp); [by right; left|exact Hx|]. eauto.
  - destruct (update_cat_KeyError_or_name [] "t") as (_ & _ & H & _).
    destruct H as (name & _ & Hn); [by right; right; left|]. eauto.
  - destruct (update_cat_KeyError_or_name ["e"; "b"; "t"; "m"; "e"] "e")
      as (_ & _ & _ & H & _).
    destruct H as (names & Hn & _); [|eauto].
    repeat (apply Forall_cons; split; [set_solver|]). apply Forall_nil_2.
Defined.

(** ** Encoded labels *)

Lemma encode_cat_dom (x : string) (d : gmap string nat) :
  dom (encode_cat x d).2 = {[x]} ∪ dom d.
Proof.
  unfold encode_cat. simpl. case_decide as Hx.
  - apply set_eq. intros y. rewrite elem_of_union, elem_of_singleton.
    split; [tauto|]. intros [->|Hy]; done.
  - by rewrite dom_insert_L.
Qed.

(** What [encode_cat] returns is the number of keys of the dictionary after
    the call, whether or not [x] was new. *)
Lemma encode_cat_label (x : string) (d : gmap string nat) :
  (encode_cat x d).1 = size ({[x]} ∪ dom d).
Proof.
  rewrite <- encode_cat_dom. unfold encode_cat. simpl. by rewrite size_dom.
Qed.

(** The stored index of a category never changes once it is there. *)
Lemma encode_cat_keeps (x y : string) (d : gmap string nat) (i : nat) :
  d !! y = Some i → (encode_cat x d).2 !! y = Some i.
Proof.
  intros Hy. unfold encode_cat. simpl. case_decide as Hx; [done|].
  rewrite lookup_insert_ne; [done|].
  intros ->. apply Hx, elem_of_dom. eauto.
Qed.

(** The label written to row [i] is the number of distinct categories among
    the rows 0..i (and the keys already in the dictionary). *)
Lemma apply_encode_cat_lookup (xs : list string) (d : gmap string nat) (i : nat) :
  i < length xs →
  (apply_encode_cat xs d).1 !! i = Some (size (list_to_set (take (S i) xs) ∪ dom d)).
Proof.
  revert d i. induction xs as [|x xs IH]; intros d i Hi; simpl in Hi; [lia|].
  cbn [apply_encode_cat]. destruct (encode_cat x d) as [v d1] eqn:E.
  destruct (apply_encode_cat xs d1) as [vs d2] eqn:E2.
  assert (v = size ({[x]} ∪ dom d)) as Hv.
  { rewrite <- encode_cat_label. by rewrite E. }
  assert (dom d1 = {[x]} ∪ dom d) as Hd1.
  { rewrite <- encode_cat_dom. by rewrite E. }
  destruct i as [|i].
  - simpl. rewrite Hv. do 2 f_equal. set_solver.
  - specialize (IH d1 i ltac:(lia)). rewrite E2 in IH. simpl in IH.
    change (vs !! i = Some (size (list_to_set (take (S (S i)) (x :: xs)) ∪ dom d))).
    rewrite IH, Hd1. do 2 f_equal. set_solver.
Qed.

(** C1: on the codes e, b, e the first and the third row carry the same
    category name, yet [encode_cat] labels them 1 and 2: it returns the size
    of [encode_dict], not the index 0 that the dictionary holds for the
    name. *)
Theorem encode_cat_same_category_two_labels :
  ∃ names labels d,
    preprocess ["e"; "b"; "e"] = Ok (names, labels, d) ∧
    names = ["Entertainment"; "Business"; "Entertainment"] ∧
    labels = [1; 2; 2] ∧
    d !! "Entertainment" = Some 0 ∧ d !! "Business" = Some 1 ∧
    names !! 0 = names !! 2 ∧ labels !! 0 ≠ labels !! 2 ∧
    labels !! 2 ≠ d !! "Entertainment".
Proof.
  eexists _, _, _. split; [vm_compute; reflexivity|].
  split_and!; try reflexivity; vm_compute; congruence.
Qed.

(** ** The classification head *)

Lemma Linear_shape_last (lin : Linear) (s : list nat) :
  Linear_shape lin (s ++ [in_features lin]) = Ok (s ++ [out_features lin]).
Proof.
  unfold Linear_shape. rewrite last_snoc. rewrite decide_True by done.
  by rewrite removelast_last.
Qed.

(** C2: the dense layer of [DistillBERTClass] has one output feature, not one
    per key of [my_dict]: for a batch of B sequences of L tokens [forward]
    returns B * L * 1 scores, one per token. *)
Theorem classification_head_has_one_output :
  out_features (l3 DistillBERTClass_init) = 1 ∧
  size my_dict = 4 ∧
  in_features (l3 DistillBERTClass_init) = distilbert_dim ∧
  (∀ B L, forward_shape DistillBERTClass_init [B; L] = Ok [B; L; 1]) ∧
  forward_shape DistillBERTClass_init [TRAIN_BATCH_SIZE; MAX_LEN] ≠ Ok [TRAIN_BATCH_SIZE; 4].
Proof.
  split_and!; [reflexivity|by vm_compute|reflexivity| |by vm_compute].
  intros B L. unfold forward_shape. simpl.
  apply (Linear_shape_last (l3 DistillBERTClass_init) [B; L]).
Qed.

(** ** The split *)

Section Split.
Context {R : Type}.
Implicit Types (rows : list R) (order : list nat).

Lemma sample_count_le (n : nat) : sample_count train_size n ≤ n.
Proof.
  unfold sample_count, py_round, train_size. simpl.
  change (Z.pos (10 * 1)) with 10%Z.
  pose proof (Z.div_mod (8 * Z.of_nat n) 10 ltac:(lia)) as Hdm.
  pose proof (Z.mod_pos_bound (8 * Z.of_nat n) 10 ltac:(lia)) as Hb.
  destruct (2 * ((8 * Z.of_nat n) `mod` 10) ?= 10)%Z eqn:E.
  - apply Z.compare_eq in E. lia.
  - lia.
  - apply Z.compare_gt_iff in E. lia.
Qed.

Lemma index_range_index rows : index (range_index rows) = seq 0 (length rows).
Proof.
  unfold index, range_index. apply list_eq. intros i.
  rewrite list_lookup_fmap, list_lookup_imap.
  destruct (rows !! i) as [r|] eqn:E; simpl.
  - symmetry. apply lookup_seq. split; [done|]. by eapply lookup_lt_Some.
  - symmetry. apply lookup_seq_ge. by apply lookup_ge_None.
Qed.

Lemma values_imap (f : nat → nat) rows : values (imap (λ i r, (f i, r)) rows) = rows.
Proof.
  unfold values. apply list_eq. intros i.
  rewrite list_lookup_fmap, list_lookup_imap. by destruct (rows !! i).
Qed.

Lemma values_range_index rows : values (range_index rows) = rows.
Proof. apply (values_imap (λ i, i)). Qed.

Lemma filter_none (P : nat * R → Prop) `{!∀ x, Decision (P x)} (l : list (nat * R)) :
  Forall (λ x, ¬ P x) l → filter P l = [].
Proof.
  induction 1 as [|x l Hx _ IH]; [done|].
  rewrite filter_cons. rewrite decide_False by done. exact IH.
Qed.

Lemma filter_all (P : nat * R → Prop) `{!∀ x, Decision (P x)} (l : list (nat * R)) :
  Forall P l → filter P l = l.
Proof.
  induction 1 as [|x l Hx _ IH]; [done|].
  rewrite filter_cons. rewrite decide_True by done. by rewrite IH.
Qed.

(** Dropping the labels 0..k-1 of a freshly read dataframe removes its
    first k rows, whatever was sampled. *)
Lemma drop_labels_prefix rows (k : nat) :
  k ≤ length rows →
  ∃ d, drop_labels (seq 0 k) (range_index rows) = Ok d ∧ values d = drop k rows.
Proof.
  intros Hk. unfold drop_labels.
  destruct (list_find _ _) as [[i l]|] eqn:E.
  { apply list_find_Some in E as (Hl & Hnot & _).
    exfalso. apply Hnot. rewrite index_range_index.
    apply lookup_seq in Hl as [-> ?]. apply elem_of_seq. lia. }
  eexists. split; [reflexivity|].
  rewrite <- (take_drop k rows) at 1. unfold range_index.
  rewrite imap_app, (filter_app (λ row : nat * R, row.1 ∉ seq 0 k)).
  rewrite (filter_none (λ row : nat * R, row.1 ∉ seq 0 k)),
          (filter_all (λ row : nat * R, row.1 ∉ seq 0 k)).
  - simpl. apply (values_imap (λ n, length (take k rows) + n)).
  - apply Forall_lookup. intros i [l r]. rewrite list_lookup_imap.
    destruct (drop k rows !! i); [|done]. simpl. intros [= <- <-]. simpl.
    rewrite elem_of_seq, length_take. lia.
  - apply Forall_lookup. intros i [l r] Hi. rewrite list_lookup_imap in Hi.
    destruct (take k rows !! i) as [r'|] eqn:E'; [|done].
    simpl in Hi. injection Hi as <- <-. simpl.
    apply lookup_lt_Some in E'. rewrite length_take in E'.
    intros Hn. apply Hn. apply elem_of_seq. lia.
Qed.

Lemma sample_values (frac : Q) order rows :
  values (sample frac order (range_index rows)) =
  omap (λ p, rows !! p) (take (sample_count frac (length rows)) order).
Proof.
  unfold sample, range_index. rewrite length_imap.
  generalize (take (sample_count frac (length rows)) order). intros ps.
  induction ps as [|p ps IH]; [done|].
  simpl. rewrite list_lookup_imap.
  destruct (rows !! p) as [r|]; simpl; [|exact IH].
  unfold values in *. f_equal. exact IH.
Qed.

Lemma omap_lookup_length rows (ps : list nat) :
  Forall (λ p, p < length rows) ps → length (omap (λ p, rows !! p) ps) = length ps.
Proof.
  induction 1 as [|p ps Hp _ IH]; [done|].
  simpl. destruct (lookup_lt_is_Some_2 rows p Hp) as [r ->]. simpl. f_equal. exact IH.
Qed.

Lemma train_dataset_rows order rows :
  train_dataset order (range_index rows) =
  range_index (omap (λ p, rows !! p)
                 (take (sample_count train_size (length rows)) order)).
Proof. unfold train_dataset, reset_index. by rewrite sample_values. Qed.

Lemma train_dataset_length order rows :
  order ≡ₚ seq 0 (length rows) →
  length (train_dataset order (range_index rows)) =
  sample_count train_size (length rows).
Proof.
  intros Hp. rewrite train_dataset_rows. unfold range_index.
  rewrite length_imap, omap_lookup_length.
  - rewrite length_take, Hp, length_seq.
    pose proof (sample_count_le (length rows)). lia.
  - apply Forall_forall. intros p Hin. apply elem_of_take in Hin as (i & Hi & _).
    apply list_elem_of_lookup_2 in Hi. rewrite Hp in Hi.
    apply elem_of_seq in Hi. lia.
Qed.

(** The test dataset is the tail of the dataframe after the first
    [round(0.8 * n)] rows: the labels dropped are those of the re-indexed
    sample, 0..k-1, not the labels of the rows that were sampled. *)
Lemma test_dataset_tail order rows :
  order ≡ₚ seq 0 (length rows) →
  test_dataset order (range_index rows) =
  Ok (range_index (drop (sample_count train_size (length rows)) rows)).
Proof.
  intros Hp. unfold test_dataset.
  assert (index (train_dataset order (range_index rows)) =
          seq 0 (sample_count train_size (length rows))) as ->.
  { rewrite <- (train_dataset_length order rows Hp).
    unfold train_dataset, reset_index. rewrite index_range_index.
    unfold range_index. by rewrite length_imap. }
  destruct (drop_labels_prefix rows _ (sample_count_le (length rows)))
    as (d & -> & Hd).
  simpl. unfold reset_index. by rewrite Hd.
Qed.

(** X8: a sampled row that lies behind the first [round(0.8 * n)] rows is in
    the training dataset and in the test dataset. *)
Lemma sampled_tail_row_in_both order rows (p : nat) :
  order ≡ₚ seq 0 (length rows) →
  p ∈ take (sample_count train_size (length rows)) order →
  sample_count train_size (length rows) ≤ p →
  ∃ r t, rows !! p = Some r ∧
         r ∈ values (train_dataset order (range_index rows)) ∧
         test_dataset order (range_index rows) = Ok t ∧ r ∈ values t.
Proof.
  intros Hp Hin Hk.
  assert (p < length rows) as Hlt.
  { apply elem_of_take in Hin as (i & Hi & _).
    apply list_elem_of_lookup_2 in Hi. rewrite Hp in Hi.
    apply elem_of_seq in Hi. lia. }
  destruct (lookup_lt_is_Some_2 rows p Hlt) as [r Hr].
  exists r, (range_index (drop (sample_count train_size (length rows)) rows)).
  split_and!; [done| |by apply test_dataset_tail|].
  - rewrite train_dataset_rows, values_range_index.
    apply list_elem_of_omap. eauto.
  - rewrite values_range_index. apply list_elem_of_lookup.
    exists (p - sample_count train_size (length rows)).
    rewrite lookup_drop. rewrite <- Hr. f_equal. lia.
Qed.

End Split.

(** C3: five rows, for which the generator seeded with 200 draws the
    positions 3, 4, 0, 1: the training dataset holds four rows and the test
    dataset one, but the test row is the row at position 4, which was sampled
    for training, and the row at position 2 is in neither dataset. *)
Theorem train_test_split_overlaps :
  let df := range_index ["t0"; "t1"; "t2"; "t3"; "t4"] in
  let order := [3; 4; 0; 1; 2] in
  values (train_dataset order df) = ["t3"; "t4"; "t0"; "t1"] ∧
  (∃ t, test_dataset order df = Ok t ∧ values t = ["t4"] ∧
        "t4" ∈ values (train_dataset order df) ∧ "t4" ∈ values t ∧
        ("t2" ∉ values (train_dataset order df)) ∧ "t2" ∉ values t).
Proof.
  split; [by vm_compute|].
  eexists. split; [by vm_compute|].
  split_and!; [by vm_compute| | | |].
  - vm_compute. apply list_elem_of_further, list_elem_of_here.
  - vm_compute. apply list_elem_of_here.
  - vm_compute. intros H.
    repeat (apply elem_of_cons in H as [H|H]; [discriminate H|]).
    by apply elem_of_nil in H.
  - vm_compute. intros H.
    repeat (apply elem_of_cons in H as [H|H]; [discriminate H|]).
    by apply elem_of_nil in H.
Qed.

(** ** Validation *)

Section Validation.
Context {W O : Type}.
Variable forward : W → bool → Batch → Tensor.
Implicit Types (w : World W O) (loader : list Batch).

(** The loop reads the parameters and the mode of the model and nothing else. *)
Lemma valid_loop_reads w w' loader (c t : nat) :
  weights w = weights w' → training w = training w' →
  valid_loop forward w loader c t = valid_loop forward w' loader c t.
Proof.
  intros Hw Ht. revert c t. induction loader as [|b loader IH]; intros c t; [done|].
  simpl. rewrite Hw, Ht.
  destruct (torch_max_dim1 _) as [idx|e]; [|done]. simpl.
  destruct (eq_sum _ _) as [n|e]; [|done]. simpl. apply IH.
Qed.

(** With the output of [DistillBERTClass.forward], of shape (B, L, 1), a
    batch of one example loses its batch dimension in [squeeze]. *)
Lemma squeeze_shape_token_scores (t : Tensor) (B L : nat) :
  2 ≤ L → shape t = [B; L; 1] →
  shape (squeeze t) = if decide (B = 1) then [L] else [B; L].
Proof.
  intros HL Hs. unfold squeeze. simpl. rewrite Hs.
  rewrite !filter_cons, filter_nil.
  destruct (decide (B = 1)); repeat case_decide; (done || lia).
Qed.

Lemma valid_loop_one_example_batch w loader (L c t : nat) :
  2 ≤ L →
  (∀ ws tr b, shape (forward ws tr b) = [length (targets b); L; 1]) →
  (∃ b, b ∈ loader ∧ length (targets b) = 1) →
  valid_loop forward w loader c t = Raise IndexError.
Proof.
  intros HL Hshape. revert c t.
  induction loader as [|b loader IH]; intros c t (b0 & Hin & Hone).
  { by apply elem_of_nil in Hin. }
  simpl. unfold torch_max_dim1.
  rewrite (squeeze_shape_token_scores _ _ L HL (Hshape _ _ b)).
  destruct (decide (length (targets b) = 1)) as [Hb|Hb]; [done|].
  rewrite decide_False by lia. simpl.
  unfold eq_sum. simpl. rewrite decide_True by done. simpl.
  apply IH. exists b0. split; [|done].
  apply elem_of_cons in Hin as [->|Hin]; [done|exact Hin].
Qed.

End Validation.

(** Whatever the state and the loader, and whether [valid] returns or
    raises, the parameters, the accumulated gradients and the state of the
    optimizer are what they were before the call and the gradient mode is
    restored; the model is left in evaluation mode, and the result is the one
    computed from the parameters alone, in evaluation mode. *)
Lemma valid_leaves_parameters_unchanged {W O : Type}
    (forward : W → bool → Batch → Tensor) (w : World W O) (loader : list Batch) :
  weights (valid forward w loader).2 = weights w ∧
  grad (valid forward w loader).2 = grad w ∧
  opt_state (valid forward w loader).2 = opt_state w ∧
  grad_enabled (valid forward w loader).2 = grad_enabled w ∧
  training (valid forward w loader).2 = false ∧
  (valid forward w loader).1 =
    (valid forward {| weights := weights w; training := false; grad_enabled := false;
                      grad := None; opt_state := opt_state w |} loader).1.
Proof.
  split_and!; try reflexivity.
  unfold valid. simpl. f_equal. apply valid_loop_reads; reflexivity.
Qed.

(** C4: when the loader holds a batch of a single example (the last batch of
    a test dataset with an odd number of rows, [VALID_BATCH_SIZE] being 2) and
    the model returns one score per token, as [DistillBERTClass] does,
    [valid] raises [IndexError] in [torch.max(..., dim=1)] and returns no
    accuracy. *)
Theorem valid_raises_on_one_example_batch {W O : Type}
    (forward : W → bool → Batch → Tensor) (w : World W O) (loader : list Batch)
    (L : nat) :
  2 ≤ L →
  (∀ ws tr b, shape (forward ws tr b) = [length (targets b); L; 1]) →
  (∃ b, b ∈ loader ∧ length (targets b) = 1) →
  (valid forward w loader).1 = Raise IndexError.
Proof.
  intros HL Hshape Hone. unfold valid. simpl.
  by rewrite (valid_loop_one_example_batch forward _ loader L 0 0 HL Hshape Hone).
Qed.

Lemma valid_raises_on_one_example_batch_witness :
  (valid three_token_scores initial_world (iterate testing_loader three_examples)).1
  = Raise IndexError.
Proof.
  apply (valid_raises_on_one_example_batch three_token_scores initial_world _ 3).
  - lia.
  - intros ws tr b. reflexivity.
  - exists (collate [([101; 9; 102], [1; 1; 1], 1)]%Z). split; [|reflexivity].
    apply list_elem_of_further, list_elem_of_here.
Defined.

(** ** Accuracy on batches of at least two examples *)

Lemma flat_map_singleton {A B} (f : A → B) (l : list A) :
  flat_map (λ x, [f x]) l = map f l.
Proof. induction l as [|x l IH]; [done|]. simpl. by rewrite IH. Qed.

Lemma count_where_ext (P Q : nat → bool) (n : nat) :
  (∀ p, p < n → P p = Q p) → count_where P n = count_where Q n.
Proof.
  intros H. unfold count_where.
  assert (∀ l : list nat, (∀ p, p ∈ l → P p = Q p) →
            length (filter (λ p, P p = true) l) = length (filter (λ p, Q p = true) l)) as Hl.
  { induction l as [|x l IH]; intros Hx; [done|].
    rewrite !filter_cons. rewrite (Hx x) by (by left).
    destruct (decide (Q x = true)); simpl; rewrite IH; try done;
      intros p Hp; apply Hx; by right. }
  apply Hl. intros p Hp. apply H. apply elem_of_seq in Hp. lia.
Qed.

Lemma nth_map_seq (f : nat → Z) (a n p : nat) :
  p < n → nth p (map f (seq a n)) 0%Z = f (a + p).
Proof.
  revert a p. induction n as [|n IH]; intros a p Hp; [lia|].
  destruct p as [|p]; simpl.
  - f_equal. lia.
  - rewrite IH by lia. f_equal. lia.
Qed.

(** On outputs that are a B x C matrix after [squeeze], [torch.max] and the
    comparison with the targets count the examples whose argmax is their
    target. *)
Lemma batch_counts (t : Tensor) (tgts : list Z) (C : nat) :
  C ≠ 0 → shape (squeeze t) = [length tgts; C] →
  ∃ big_idx, torch_max_dim1 (squeeze t) = Ok big_idx ∧
             eq_sum big_idx tgts = Ok (batch_correct C t tgts).
Proof.
  intros HC Hs. unfold torch_max_dim1. rewrite Hs. rewrite decide_False by done.
  eexists. split; [reflexivity|].
  unfold eq_sum. simpl. rewrite decide_True by done. f_equal.
  rewrite flat_map_singleton, length_map, length_seq.
  unfold batch_correct. apply count_where_ext. intros p Hp.
  rewrite Nat.mod_small by done.
  rewrite nth_map_seq by done. simpl. do 3 f_equal.
  unfold example_scores. apply map_ext. intros j. f_equal. lia.
Qed.

Section Accuracy.
Context {W O : Type}.
Variable forward : W → bool → Batch → Tensor.
Variable C : nat.
Hypothesis C_pos : C ≠ 0.

Lemma valid_loop_counts (w : World W O) (loader : list Batch) (c t : nat) :
  training w = false →
  matrix_outputs forward (weights w) C loader →
  valid_loop forward w loader c t =
  Ok (c + correct_examples forward (weights w) C loader, t + total_examples loader).
Proof.
  intros Hev. revert c t. induction loader as [|b loader IH]; intros c t Hm.
  { unfold correct_examples, total_examples. simpl. by rewrite !Nat.add_0_r. }
  destruct (Hm b) as [_ Hs]; [by left|].
  simpl. rewrite Hev.
  destruct (batch_counts (forward (weights w) false b) (targets b) C C_pos Hs)
    as (big_idx & -> & Hc).
  simpl. rewrite Hc. simpl. rewrite IH.
  - unfold correct_examples, total_examples. simpl. by rewrite !Nat.add_assoc.
  - intros b' Hb'. apply Hm. by right.
Qed.

Lemma total_examples_pos (ws : W) (loader : list Batch) :
  loader ≠ [] → matrix_outputs forward ws C loader → total_examples loader ≠ 0.
Proof.
  destruct loader as [|b loader]; [done|]. intros _ Hm.
  destruct (Hm b) as [Hne _]; [by left|].
  unfold total_examples. simpl. destruct (targets b); [done|]. simpl. lia.
Qed.

(** X13: over a non-empty loader whose batches keep their two dimensions,
    [valid] returns a hundred times the number of examples whose argmax is
    their target, divided by the number of examples. *)
Lemma valid_accuracy (w : World W O) (loader : list Batch) :
  loader ≠ [] →
  matrix_outputs forward (weights w) C loader →
  (valid forward w loader).1 =
  Ok (inject_Z (Z.of_nat (correct_examples forward (weights w) C loader) * 100)
      / inject_Z (Z.of_nat (total_examples loader)))%Q.
Proof.
  intros Hne Hm. unfold valid. simpl.
  rewrite valid_loop_counts by done. simpl.
  unfold percentage. rewrite decide_False; [done|].
  by apply (total_examples_pos (weights w)).
Qed.

End Accuracy.

(** The returned value is the ratio correct/total scaled to a percentage. *)
Lemma percentage_is_scaled_ratio (correct total : nat) :
  total ≠ 0 →
  (inject_Z (Z.of_nat correct * 100) / inject_Z (Z.of_nat total)
   == 100 * (inject_Z (Z.of_nat correct) / inject_Z (Z.of_nat total)))%Q.
Proof.
  intros Ht. rewrite inject_Z_mult. change (inject_Z 100) with 100%Q.
  field. intros H. apply Ht.
  assert (Z.of_nat total = 0%Z) as H0; [|lia].
  apply (eq_sym (A := Z)). revert H. unfold Qeq. simpl. lia.
Qed.

Example valid_four_examples :
  (valid three_token_scores initial_world (iterate testing_loader four_examples)).1
  = Ok (300 # 4)%Q.
Proof. reflexivity. Qed.

(** The training loop does change the parameters: one batch, one step. *)
Example train_one_batch_steps :
  weights (train three_token_scores (λ ws _ _, Ok ws)
             (λ o ws g, (o, (g.1.1 + 1, ws.1.2, ws.2)%Z))
             initial_world (iterate training_loader four_examples)).2
  = (2, 5, 2)%Z.
Proof. reflexivity. Qed.

(** With one score per token and batches of two examples or more, the
    "classes" compared with the targets are the token positions. *)
Lemma token_scores_matrix_outputs {W} (forward : W → bool → Batch → Tensor)
    (ws : W) (L : nat) (loader : list Batch) :
  2 ≤ L →
  (∀ ws tr b, shape (forward ws tr b) = [length (targets b); L; 1]) →
  (∀ b, b ∈ loader → 2 ≤ length (targets b)) →
  matrix_outputs forward ws L loader.
Proof.
  intros HL Hshape Hb b Hin. specialize (Hb b Hin). split.
  - destruct (targets b); [simpl in Hb; lia|done].
  - rewrite (squeeze_shape_token_scores _ _ L HL (Hshape _ _ b)).
    by rewrite decide_False by lia.
Qed.

(** The two lemmas at work: four examples in two batches of two. *)
Lemma valid_accuracy_four_examples :
  (valid three_token_scores initial_world (iterate testing_loader four_examples)).1
  = Ok (inject_Z (Z.of_nat 3 * 100) / inject_Z (Z.of_nat 4))%Q.
Proof.
  apply (valid_accuracy three_token_scores 3 ltac:(lia) initial_world
           (iterate testing_loader four_examples)); [discriminate|].
  apply token_scores_matrix_outputs; [lia|reflexivity|].
  intros b Hb. vm_compute in Hb.
  repeat (apply elem_of_cons in Hb as [->|Hb]; [simpl; lia|]).
  by apply elem_of_nil in Hb.
Defined.

(** ** The script *)

(** C8: the tokenizer is loaded from the cased checkpoint and the encoder of
    the model from the uncased one. *)
Theorem tokenizer_and_encoder_checkpoints_differ :
  tokenizer_checkpoint = "distilbert-base-cased" ∧
  l1 DistillBERTClass_init = "distilbert-base-uncased" ∧
  tokenizer_checkpoint ≠ l1 DistillBERTClass_init ∧
  filter (λ c, loads_checkpoint c = true) script =
    [ FromPretrained "DistilBertTokenizer" "distilbert-base-cased";
      FromPretrained "DistilBertModel" "distilbert-base-uncased" ].
Proof. split_and!; try reflexivity. discriminate. Qed.

(** Both parameter dictionaries set [num_workers] to 0 and both loaders are
    built with that setting. *)
Lemma loaders_have_no_workers :
  train_params !! "num_workers" = Some (PyInt 0) ∧
  test_params !! "num_workers" = Some (PyInt 0) ∧
  num_workers training_loader = 0%Z ∧
  num_workers testing_loader = 0%Z ∧
  batch_size training_loader = Z.of_nat TRAIN_BATCH_SIZE ∧
  batch_size testing_loader = Z.of_nat VALID_BATCH_SIZE.
Proof. split_and!; by vm_compute. Qed.

(** * Further properties of the code *)

(** ** The dictionary of encoded categories *)

Lemma apply_encode_cat_keeps (xs : list string) (d : gmap string nat) (y : string) (i : nat) :
  d !! y = Some i → (apply_encode_cat xs d).2 !! y = Some i.
Proof.
  revert d. induction xs as [|x xs IH]; intros d Hy; [done|].
  cbn [apply_encode_cat].
  pose proof (encode_cat_keeps x y d i Hy) as Hk.
  destruct (encode_cat x d) as [v d1]. simpl in Hk.
  specialize (IH d1 Hk). destruct (apply_encode_cat xs d1) as [vs d2]. exact IH.
Qed.

Lemma apply_encode_cat_first_seen (xs : list string) (d : gmap string nat)
    (j : nat) (x : string) :
  xs !! j = Some x → x ∉ take j xs → x ∉ dom d →
  (apply_encode_cat xs d).2 !! x = Some (size (list_to_set (take j xs) ∪ dom d)).
Proof.
  revert d j. induction xs as [|a xs IH]; intros d j Hj Hnew Hd; [done|].
  cbn [apply_encode_cat].
  pose proof (encode_cat_dom a d) as Hdom.
  destruct (encode_cat a d) as [v d1] eqn:E. simpl in Hdom.
  destruct j as [|j].
  - injection Hj as Hax. subst a.
    assert (d1 !! x = Some (size d)) as Hx.
    { unfold encode_cat in E. rewrite decide_False in E by done.
      injection E as _ <-. apply lookup_insert_eq. }
    pose proof (apply_encode_cat_keeps xs d1 x _ Hx) as Hk.
    destruct (apply_encode_cat xs d1) as [vs d2]. simpl in *.
    rewrite Hk. f_equal. rewrite <- size_dom. f_equal. set_solver.
  - simpl in Hj, Hnew. apply not_elem_of_cons in Hnew as [Hne Hnew].
    specialize (IH d1 j Hj Hnew). rewrite Hdom in IH.
    destruct (apply_encode_cat xs d1) as [vs d2]. simpl in *.
    rewrite IH by set_solver. do 2 f_equal. set_solver.
Qed.

(** X1: the label written to row [i] of the ENCODE_CAT column is the number
    of distinct categories among the rows 0 to [i]. *)
Theorem ENCODE_CAT_label_counts_distinct (xs : list string) (i : nat) :
  i < length xs →
  (apply_encode_cat xs encode_dict).1 !! i
  = Some (size (list_to_set (take (S i) xs) : gset string)).
Proof.
  intros Hi. rewrite (apply_encode_cat_lookup xs encode_dict i Hi).
  unfold encode_dict. rewrite dom_empty_L. do 2 f_equal. set_solver.
Qed.

Lemma ENCODE_CAT_label_counts_distinct_witness :
  (apply_encode_cat ["Health"; "Science"; "Health"; "Business"] encode_dict).1 !! 2
  = Some 2.
Proof.
  rewrite (ENCODE_CAT_label_counts_distinct
             ["Health"; "Science"; "Health"; "Business"] 2); [|simpl; lia].
  f_equal.
Defined.

(** X2: the index that [encode_dict] holds for a category after the column
    has been encoded is the number of distinct categories seen before the
    first row of that category: dense indices in first-seen order. *)
Theorem encode_dict_first_seen_index (xs : list string) (j : nat) (x : string) :
  xs !! j = Some x → x ∉ take j xs →
  (apply_encode_cat xs encode_dict).2 !! x
  = Some (size (list_to_set (take j xs) : gset string)).
Proof.
  intros Hj Hnew.
  rewrite (apply_encode_cat_first_seen xs encode_dict j x Hj Hnew).
  - unfold encode_dict. rewrite dom_empty_L. do 2 f_equal. set_solver.
  - unfold encode_dict. rewrite dom_empty_L. set_solver.
Qed.

Lemma encode_dict_first_seen_index_witness :
  (apply_encode_cat ["Health"; "Science"; "Health"; "Business"] encode_dict).2
    !! "Business" = Some 2.
Proof.
  rewrite (encode_dict_first_seen_index
             ["Health"; "Science"; "Health"; "Business"] 3 "Business").
  - f_equal.
  - reflexivity.
  - simpl. intros H.
    repeat (apply elem_of_cons in H as [H|H]; [discriminate H|]).
    by apply elem_of_nil in H.
Defined.

Lemma encode_cat_dense (x : string) (d : gmap string nat) :
  (∀ y i, d !! y = Some i → i < size d) →
  (∀ y z i, d !! y = Some i → d !! z = Some i → y = z) →
  (∀ y i, (encode_cat x d).2 !! y = Some i → i < size (encode_cat x d).2) ∧
  (∀ y z i, (encode_cat x d).2 !! y = Some i → (encode_cat x d).2 !! z = Some i → y = z).
Proof.
  intros Hlt Hinj. unfold encode_cat. simpl. case_decide as Hx; [done|].
  assert (d !! x = None) as Hnone by (by apply not_elem_of_dom).
  rewrite map_size_insert_None by done. split.
  - intros y i. rewrite lookup_insert. case_decide as Hy.
    + intros [= <-]. lia.
    + intros Hi. specialize (Hlt y i Hi). lia.
  - intros y z i. rewrite !lookup_insert.
    destruct (decide (x = y)) as [Hy|Hy]; destruct (decide (x = z)) as [Hz|Hz].
    + intros _ _. congruence.
    + intros [= <-] Hi. specialize (Hlt z _ Hi). lia.
    + intros Hi [= <-]. specialize (Hlt y _ Hi). lia.
    + apply Hinj.
Qed.

(** X3: whatever the column, [encode_dict] ends as a one-to-one numbering of
    the categories of the column by the numbers below its size. *)
Theorem encode_dict_is_dense_numbering (xs : list string) :
  dom (apply_encode_cat xs encode_dict).2 = list_to_set xs ∧
  (∀ y i, (apply_encode_cat xs encode_dict).2 !! y = Some i →
          i < size (apply_encode_cat xs encode_dict).2) ∧
  (∀ y z i, (apply_encode_cat xs encode_dict).2 !! y = Some i →
            (apply_encode_cat xs encode_dict).2 !! z = Some i → y = z).
Proof.
  assert (∀ (l : list string) (d : gmap string nat),
            (∀ y i, d !! y = Some i → i < size d) →
            (∀ y z i, d !! y = Some i → d !! z = Some i → y = z) →
            dom (apply_encode_cat l d).2 = list_to_set l ∪ dom d ∧
            (∀ y i, (apply_encode_cat l d).2 !! y = Some i →
                    i < size (apply_encode_cat l d).2) ∧
            (∀ y z i, (apply_encode_cat l d).2 !! y = Some i →
                      (apply_encode_cat l d).2 !! z = Some i → y = z)) as H.
  { induction l as [|a l IH]; intros d Hlt Hinj.
    - simpl. split_and!; [set_solver|done|done].
    - cbn [apply_encode_cat].
      destruct (encode_cat_dense a d Hlt Hinj) as [Hlt1 Hinj1].
      pose proof (encode_cat_dom a d) as Hdom.
      destruct (encode_cat a d) as [v d1]. simpl in *.
      destruct (IH d1 Hlt1 Hinj1) as (Hd & Hl & Hi).
      destruct (apply_encode_cat l d1) as [vs d2]. simpl in *.
      split_and!; [|done|done]. rewrite Hd, Hdom. set_solver. }
  destruct (H xs encode_dict) as (Hd & Hl & Hi).
  - intros y i Hy. unfold encode_dict in Hy. by rewrite lookup_empty in Hy.
  - intros y z i Hy. unfold encode_dict in Hy. by rewrite lookup_empty in Hy.
  - split_and!; [|done|done]. rewrite Hd. unfold encode_dict.
    rewrite dom_empty_L. set_solver.
Qed.

(** ** The labels of the ENCODE_CAT column *)

Lemma apply_series_Forall2 {A B} (f : A → result B) (xs : list A) (ys : list B) :
  apply_series f xs = Ok ys → Forall2 (λ x y, f x = Ok y) xs ys.
Proof.
  revert ys. induction xs as [|x xs IH]; intros ys H; simpl in H.
  - injection H as <-. constructor.
  - destruct (f x) as [y|e] eqn:Ex; [|done]. simpl in H.
    destruct (apply_series f xs) as [ys'|e]; [|done]. simpl in H.
    injection H as <-. constructor; [done|]. by apply IH.
Qed.

Lemma update_cat_name (x name : string) :
  update_cat x = Ok name →
  name ∈ ["Entertainment"; "Business"; "Science"; "Health"].
Proof.
  unfold update_cat. destruct (my_dict !! x) as [n|] eqn:E; [|done].
  intros [= <-]. unfold my_dict in E.
  repeat (apply lookup_insert_Some in E as [[_ <-]|[_ E]]; [set_solver|]).
  by rewrite lookup_empty in E.
Qed.

Lemma apply_encode_cat_length (xs : list string) (d : gmap string nat) :
  length (apply_encode_cat xs d).1 = length xs.
Proof.
  revert d. induction xs as [|x xs IH]; intros d; [done|].
  cbn [apply_encode_cat]. destruct (encode_cat x d) as [v d1].
  specialize (IH d1). destruct (apply_encode_cat xs d1) as [vs d2].
  simpl in *. by rewrite IH.
Qed.

(** X4: when the preprocessing succeeds, every row has a label, the labels
    lie between 1 and 4 (never 0), and they never decrease from one row to
    the next rows. *)
Theorem ENCODE_CAT_labels_range (codes names : list string) (labels : list nat)
    (d : gmap string nat) :
  preprocess codes = Ok (names, labels, d) →
  length labels = length codes ∧
  Forall (λ l, 1 ≤ l ≤ 4) labels ∧
  (∀ i j a b, i ≤ j → labels !! i = Some a → labels !! j = Some b → a ≤ b).
Proof.
  unfold preprocess. destruct (apply_update_cat codes) as [ns|e] eqn:Hn; [|done].
  simpl. destruct (apply_encode_cat ns encode_dict) as [ls d'] eqn:He.
  intros [= <- <- <-].
  apply apply_series_Forall2 in Hn.
  assert (length ls = length ns) as Hlen.
  { pose proof (apply_encode_cat_length ns encode_dict) as H. by rewrite He in H. }
  assert (∀ i a, ls !! i = Some a →
            a = size (list_to_set (take (S i) ns) : gset string) ∧ i < length ns) as Hl.
  { intros i a Hi. assert (i < length ns) as Hlt.
    { rewrite <- Hlen. by eapply lookup_lt_Some. }
    split; [|done].
    pose proof (apply_encode_cat_lookup ns encode_dict i Hlt) as H.
    rewrite He in H. simpl in H. rewrite Hi in H. injection H as ->.
    unfold encode_dict. rewrite dom_empty_L. f_equal. set_solver. }
  split_and!.
  - rewrite Hlen. symmetry. by eapply Forall2_length.
  - apply Forall_lookup. intros i a Hi. destruct (Hl i a Hi) as [-> Hlt]. split.
    + destruct (lookup_lt_is_Some_2 ns i Hlt) as [n Hn'].
      assert (n ∈ (list_to_set (take (S i) ns) : gset string)) as Hin.
      { apply elem_of_list_to_set. apply list_elem_of_lookup. exists i.
        rewrite lookup_take_lt by lia. done. }
      destruct (decide (size (list_to_set (take (S i) ns) : gset string) = 0)) as [H0|]; [|lia].
      apply size_empty_inv in H0. apply leibniz_equiv in H0. set_solver.
    + assert ((list_to_set (take (S i) ns) : gset string) ⊆
              list_to_set ["Entertainment"; "Business"; "Science"; "Health"]) as Hsub.
      { intros n Hin. apply elem_of_list_to_set in Hin. apply elem_of_list_to_set.
        apply elem_of_take in Hin as (k & Hk & _).
        destruct (Forall2_lookup_r _ _ _ _ _ Hn Hk) as (c & _ & Hc).
        by eapply update_cat_name. }
      apply subseteq_size in Hsub. etrans; [exact Hsub|]. by vm_compute.
  - intros i j a b Hij Hi Hj.
    destruct (Hl i a Hi) as [-> _]. destruct (Hl j b Hj) as [-> _].
    apply subseteq_size. intros n Hin.
    apply elem_of_list_to_set in Hin. apply elem_of_list_to_set.
    apply elem_of_take in Hin as (k & Hk & Hlt).
    apply elem_of_take. exists k. split; [done|lia].
Qed.

Lemma ENCODE_CAT_labels_range_witness :
  ∃ names labels d,
    preprocess ["m"; "t"; "m"; "b"] = Ok (names, labels, d) ∧
    length labels = 4 ∧ Forall (λ l, 1 ≤ l ≤ 4) labels.
Proof.
  eexists _, _, _.
  assert (preprocess ["m"; "t"; "m"; "b"] =
          Ok (["Health"; "Science"; "Health"; "Business"], [1; 2; 2; 3],
              (apply_encode_cat ["Health"; "Science"; "Health"; "Business"]
                 encode_dict).2)) as H by reflexivity.
  split; [exact H|].
  destruct (ENCODE_CAT_labels_range _ _ _ _ H) as (Hlen & Hr & _).
  split; [exact Hlen|exact Hr].
Defined.

(** X5: two codes with the same category name are the same code: the
    renaming of the CATEGORY column loses nothing. *)
Theorem update_cat_injective (x y name : string) :
  update_cat x = Ok name → update_cat y = Ok name → x = y.
Proof.
  unfold update_cat.
  destruct (my_dict !! x) as [n|] eqn:Ex; [|done].
  destruct (my_dict !! y) as [m|] eqn:Ey; [|done].
  intros [= ->] [= ->]. unfold my_dict in Ex, Ey.
  repeat (apply lookup_insert_Some in Ex as [[<- Ex]|[_ Ex]];
          [repeat (apply lookup_insert_Some in Ey as [[<- Ey]|[_ Ey]];
                   [first [reflexivity | subst; discriminate]|]);
           by rewrite lookup_empty in Ey|]).
  by rewrite lookup_empty in Ex.
Qed.

Lemma update_cat_injective_witness : "t" = "t".
Proof.
  apply (update_cat_injective "t" "t" "Science"); reflexivity.
Defined.

(** ** Sizes and content of the two datasets *)

Lemma sample_count_bounds (n : nat) :
  5 * sample_count train_size n ≤ 4 * n + 2 ∧ 4 * n ≤ 5 * sample_count train_size n + 2.
Proof.
  unfold sample_count, py_round, train_size. simpl.
  change (Z.pos (10 * 1)) with 10%Z.
  pose proof (Z.div_mod (8 * Z.of_nat n) 10 ltac:(lia)) as Hdm.
  pose proof (Z.mod_pos_bound (8 * Z.of_nat n) 10 ltac:(lia)) as Hb.
  assert (0 ≤ (8 * Z.of_nat n) `div` 10)%Z as Hq by (apply Z.div_pos; lia).
  destruct (Z.compare_spec (2 * ((8 * Z.of_nat n) `mod` 10)) 10) as [E|E|E]; lia.
Qed.

(** X6: the sample takes the integer nearest to four fifths of the rows,
    [(4n + 2) / 5] in integer arithmetic; it takes every row exactly when the
    dataframe has at most two rows. *)
Theorem sample_count_nearest_to_four_fifths (n : nat) :
  sample_count train_size n = (4 * n + 2) / 5 ∧
  sample_count train_size n ≤ n ∧
  (sample_count train_size n = n ↔ n ≤ 2).
Proof.
  destruct (sample_count_bounds n) as [H1 H2].
  split_and!.
  - apply (Nat.div_unique _ 5 _ (4 * n + 2 - 5 * sample_count train_size n)); lia.
  - lia.
  - lia.
Qed.

Section SplitContent.
Context {R : Type}.
Implicit Types (rows : list R) (order : list nat).

(** X7: whatever the generator draws, the drop raises no [KeyError], the test
    dataset is the rows of the dataframe from position [round(0.8 n)] on, in
    their order and re-indexed from 0, and the sizes of the two datasets add
    up to the size of the dataframe. *)
Theorem test_dataset_is_the_tail order rows :
  order ≡ₚ seq 0 (length rows) →
  ∃ t, test_dataset order (range_index rows) = Ok t ∧
       values t = drop (sample_count train_size (length rows)) rows ∧
       index t = seq 0 (length rows - sample_count train_size (length rows)) ∧
       length (train_dataset order (range_index rows))
         = sample_count train_size (length rows) ∧
       length (train_dataset order (range_index rows)) + length t = length rows.
Proof.
  intros Hp. eexists. split; [by apply test_dataset_tail|].
  pose proof (sample_count_le (length rows)) as Hle.
  rewrite values_range_index, index_range_index, length_drop.
  rewrite (train_dataset_length order rows Hp).
  split_and!; try done.
  unfold range_index. rewrite length_imap, length_drop. lia.
Qed.

(** X9: a row among the first [round(0.8 n)] rows that the generator did not
    sample is in neither dataset (rows told apart by their content). *)
Theorem unsampled_head_row_in_neither order rows (p : nat) (r : R) :
  order ≡ₚ seq 0 (length rows) → NoDup rows →
  rows !! p = Some r →
  p < sample_count train_size (length rows) →
  p ∉ take (sample_count train_size (length rows)) order →
(r ∉ values (train_dataset order (range_index rows))) ∧
  ∃ t, test_dataset order (range_index rows) = Ok t ∧ r ∉ values t.
Proof.
  intros Hp Hnd Hr Hlt Hnot. split.
  - rewrite train_dataset_rows, values_range_index.
    intros Hin. apply list_elem_of_omap in Hin as (q & Hq & Hrq).
    assert (q = p) as -> by (by eapply (NoDup_lookup rows q p r)).
    done.
  - eexists. split; [by apply test_dataset_tail|].
    rewrite values_range_index. intros Hin.
    apply list_elem_of_lookup in Hin as (i & Hi). rewrite lookup_drop in Hi.
    pose proof (NoDup_lookup rows _ _ r Hnd Hi Hr). lia.
Qed.

End SplitContent.

Lemma test_dataset_is_the_tail_witness :
  ∃ t, test_dataset [3; 4; 0; 1; 2] (range_index ["t0"; "t1"; "t2"; "t3"; "t4"]) = Ok t ∧
       values t = ["t4"].
Proof.
  destruct (test_dataset_is_the_tail [3; 4; 0; 1; 2] ["t0"; "t1"; "t2"; "t3"; "t4"])
    as (t & Ht & Hv & _).
  - apply (bool_decide_unpack _). by vm_compute.
  - exists t. split; [exact Ht|exact Hv].
Defined.

Lemma sampled_tail_row_in_both_witness :
  ∃ r t, r ∈ values (train_dataset [3; 4; 0; 1; 2]
                       (range_index ["t0"; "t1"; "t2"; "t3"; "t4"])) ∧
         test_dataset [3; 4; 0; 1; 2] (range_index ["t0"; "t1"; "t2"; "t3"; "t4"]) = Ok t ∧
         r ∈ values t.
Proof.
  destruct (sampled_tail_row_in_both [3; 4; 0; 1; 2] ["t0"; "t1"; "t2"; "t3"; "t4"] 4)
    as (r & t & _ & Htr & Ht & Hte).
  - apply (bool_decide_unpack _). by vm_compute.
  - apply list_elem_of_further, list_elem_of_here.
  - vm_compute. lia.
  - exists r, t. split_and!; [exact Htr|exact Ht|exact Hte].
Defined.

Lemma unsampled_head_row_in_neither_witness :
  "t2" ∉ values (train_dataset [3; 4; 0; 1; 2]
                   (range_index ["t0"; "t1"; "t2"; "t3"; "t4"])).
Proof.
  apply (unsampled_head_row_in_neither [3; 4; 0; 1; 2]
           ["t0"; "t1"; "t2"; "t3"; "t4"] 2 "t2").
  - apply (bool_decide_unpack _). by vm_compute.
  - apply (bool_decide_unpack _). by vm_compute.
  - reflexivity.
  - vm_compute. lia.
  - apply (bool_decide_unpack _). by vm_compute.
Defined.

(** ** The predicted index *)

Lemma argmax_from_spec (xs : list Z) (pre : list Z) (best_i : nat) (best : Z) :
  pre !! best_i = Some best →
  Forall (λ x, (x ≤ best)%Z) pre →
  (∀ k x, k < best_i → pre !! k = Some x → (x < best)%Z) →
  ∃ m, (pre ++ xs) !! argmax_from best_i best (length pre) xs = Some m ∧
       Forall (λ x, (x ≤ m)%Z) (pre ++ xs) ∧
       (∀ k x, k < argmax_from best_i best (length pre) xs →
               (pre ++ xs) !! k = Some x → (x < m)%Z).
Proof.
  revert pre best_i best. induction xs as [|x xs IH]; intros pre best_i best Hb Hle Hlt.
  - simpl. rewrite app_nil_r. eauto.
  - simpl. destruct (best <? x)%Z eqn:E.
    + apply Z.ltb_lt in E.
      destruct (IH (pre ++ [x]) (length pre) x) as (m & Hm & Hall & Hfirst).
      * rewrite lookup_app_r by lia. by rewrite Nat.sub_diag.
      * apply Forall_app. split; [|by repeat constructor].
        eapply Forall_impl; [exact Hle|]. simpl. intros. lia.
      * intros k y Hk Hy. rewrite lookup_app_l in Hy by done.
        rewrite Forall_lookup in Hle. specialize (Hle k y Hy). simpl in Hle. lia.
      * rewrite length_app in Hm, Hfirst. simpl in Hm, Hfirst.
        rewrite Nat.add_1_r in Hm, Hfirst. rewrite <- app_assoc in Hm, Hall, Hfirst.
        exists m. eauto.
    + apply Z.ltb_ge in E.
      destruct (IH (pre ++ [x]) best_i best) as (m & Hm & Hall & Hfirst).
      * rewrite lookup_app_l; [done|]. by eapply lookup_lt_Some.
      * apply Forall_app. split; [done|by repeat constructor].
      * intros k y Hk Hy. apply (Hlt k y Hk).
        rewrite lookup_app_l in Hy; [done|].
        apply lookup_lt_Some in Hb. lia.
      * rewrite length_app in Hm, Hfirst. simpl in Hm, Hfirst.
        rewrite Nat.add_1_r in Hm, Hfirst. rewrite <- app_assoc in Hm, Hall, Hfirst.
        exists m. eauto.
Qed.

(** X10: on scores that are not empty, the predicted index is a position of
    the list, no score is greater than the score at that position, and every
    score before it is smaller: ties go to the first maximum. *)
Theorem argmax_is_first_maximum (xs : list Z) :
  xs ≠ [] →
  ∃ m, xs !! argmax xs = Some m ∧
       Forall (λ x, (x ≤ m)%Z) xs ∧
       (∀ k x, k < argmax xs → xs !! k = Some x → (x < m)%Z).
Proof.
  destruct xs as [|x xs]; [done|]. intros _. unfold argmax.
  apply (argmax_from_spec xs [x] 0 x).
  - done.
  - by repeat constructor.
  - intros k y Hk. lia.
Qed.

Lemma argmax_is_first_maximum_witness :
  ∃ m, [3; 7; 7; 2]%Z !! argmax [3; 7; 7; 2]%Z = Some m ∧
       Forall (λ x, (x ≤ m)%Z) [3; 7; 7; 2]%Z.
Proof.
  destruct (argmax_is_first_maximum [3; 7; 7; 2]%Z) as (m & Hm & Hall & _);
    [discriminate|].
  exists m. split; [exact Hm|exact Hall].
Defined.

(** ** [squeeze] *)

Lemma numel_filter_ones (s : list nat) : numel (filter (λ d, d ≠ 1) s) = numel s.
Proof.
  induction s as [|d s IH]; [done|].
  rewrite filter_cons. destruct (decide (d ≠ 1)) as [Hd|Hd]; simpl.
  - by rewrite IH.
  - assert (d = 1) as -> by (destruct (decide (d = 1)); [done|contradiction]).
    rewrite IH. lia.
Qed.

(** X11: [squeeze] keeps the elements and their number, leaves no dimension
    of size one, and squeezing twice is squeezing once; a tensor all of whose
    dimensions are of size one becomes a scalar. *)
Theorem squeeze_properties (t : Tensor) :
  data (squeeze t) = data t ∧
  numel (shape (squeeze t)) = numel (shape t) ∧
(1 ∉ shape (squeeze t)) ∧
  squeeze (squeeze t) = squeeze t ∧
  (Forall (λ d, d = 1) (shape t) ↔ shape (squeeze t) = []).
Proof.
  unfold squeeze. simpl. split_and!.
  - done.
  - apply numel_filter_ones.
  - intros H. apply list_elem_of_filter in H as [H _]. done.
  - f_equal. induction (shape t) as [|d s IH]; [done|].
    rewrite filter_cons. destruct (decide (d ≠ 1)) as [Hd|Hd].
    + rewrite filter_cons. rewrite decide_True by done. by rewrite IH.
    + exact IH.
  - induction (shape t) as [|d s IH]; [done|].
    rewrite filter_cons. destruct (decide (d ≠ 1)) as [Hd|Hd].
    + split; [|done]. intros H. apply Forall_cons in H as [H _]. done.
    + rewrite <- IH. split.
      * intros H. by apply Forall_cons in H as [_ H].
      * intros H. apply Forall_cons. split; [|done].
        destruct (decide (d = 1)); [done|contradiction].
Qed.

(** ** Batches *)

Lemma batches_from_concat {A} (bs : nat) (cur xs : list A) :
  concat (batches_from bs cur xs) = reverse cur ++ xs.
Proof.
  revert cur. induction xs as [|x xs IH]; intros cur.
  - destruct cur; [done|]. simpl. by rewrite !app_nil_r.
  - cbn [batches_from]. case_decide.
    + cbn [concat]. rewrite IH. rewrite reverse_cons, reverse_nil.
      rewrite <- app_assoc. done.
    + rewrite IH. rewrite reverse_cons, <- app_assoc. done.
Qed.


Lemma batches_from_remainder {A} (bs : nat) (cur xs : list A) :
  length cur < bs →
  ((length cur + length xs) mod bs = 0 →
     Forall (λ b, length b = bs) (batches_from bs cur xs)) ∧
  ((length cur + length xs) mod bs ≠ 0 →
     ∃ front b, batches_from bs cur xs = front ++ [b] ∧
                Forall (λ b, length b = bs) front ∧
                length b = (length cur + length xs) mod bs).
Proof.
  revert cur. induction xs as [|x xs IH]; intros cur Hc.
  - simpl. rewrite Nat.add_0_r. rewrite Nat.mod_small by done.
    destruct cur as [|c cur]; simpl.
    + split; [constructor|done].
    + split; [lia|]. intros _. exists [], (reverse (c :: cur)).
      split_and!; [done|constructor|]. by rewrite length_reverse.
  - cbn [batches_from]. case_decide as Hb.
    + destruct (IH [] ltac:(simpl; lia)) as [IH0 IH1].
      assert ((length cur + length (x :: xs)) mod bs = (length (@nil A) + length xs) mod bs)
        as ->.
      { simpl in *. replace (length cur + S (length xs)) with (length xs + 1 * bs) by lia.
        by rewrite Nat.Div0.mod_add. }
      split.
      * intros H0. constructor; [by rewrite length_reverse|]. by apply IH0.
      * intros H1. destruct (IH1 H1) as (front & b & -> & Hf & Hl).
        exists (reverse (x :: cur) :: front), b.
        split_and!; [done| |done]. constructor; [by rewrite length_reverse|done].
    + destruct (IH (x :: cur) ltac:(simpl in *; lia)) as [IH0 IH1].
      assert (length cur + length (x :: xs) = length (x :: cur) + length xs) as ->
        by (simpl; lia).
      done.
Qed.



(** ** The accuracy loop over the batches of the test loader *)

Lemma testing_loader_batch_size : Z.to_nat (batch_size testing_loader) = 2.
Proof. reflexivity. Qed.

Lemma percentage_bounds (c t : nat) :
  c ≤ t → t ≠ 0 →
  (0 <= inject_Z (Z.of_nat c * 100) / inject_Z (Z.of_nat t))%Q ∧
  (inject_Z (Z.of_nat c * 100) / inject_Z (Z.of_nat t) <= 100)%Q.
Proof.
  intros Hc Ht. unfold Qle, Qdiv, Qmult, Qinv, inject_Z. simpl.
  destruct (Z.of_nat t) as [|p|p] eqn:E;
    [lia| |pose proof (Pos2Z.neg_is_neg p); lia].
  cbn [Qnum Qden]. rewrite Pos.mul_1_l. lia.
Qed.

Lemma batch_correct_le (C : nat) (t : Tensor) (tgts : list Z) :
  batch_correct C t tgts ≤ length tgts.
Proof.
  unfold batch_correct, count_where.
  etrans; [apply length_filter|]. by rewrite length_seq.
Qed.

Lemma correct_examples_le {W} (forward : W → bool → Batch → Tensor) (ws : W)
    (C : nat) (loader : list Batch) :
  correct_examples forward ws C loader ≤ total_examples loader.
Proof.
  unfold correct_examples, total_examples.
  induction loader as [|b loader IH]; [done|].
  rewrite !fmap_cons. cbn [sum_list sum_list_with].
  pose proof (batch_correct_le C (forward ws false b) (targets b)).
  apply Nat.add_le_mono; [exact H|exact IH].
Qed.

(** X14: when every batch comes out of [squeeze] as a matrix, the value
    [valid] returns is a percentage between 0 and 100. *)
Theorem valid_percentage_between_0_and_100 {W O : Type}
    (forward : W → bool → Batch → Tensor) (C : nat) (w : World W O)
    (loader : list Batch) :
  C ≠ 0 → loader ≠ [] → matrix_outputs forward (weights w) C loader →
  ∃ q, (valid forward w loader).1 = Ok q ∧ (0 <= q)%Q ∧ (q <= 100)%Q.
Proof.
  intros HC Hne Hm. unfold valid. simpl.
  rewrite (valid_loop_counts forward C HC) by done. simpl.
  unfold percentage.
  pose proof (total_examples_pos forward C HC (weights w) loader Hne Hm) as Ht.
  rewrite decide_False by done. eexists. split; [reflexivity|].
  apply percentage_bounds; [apply correct_examples_le|done].
Qed.

Lemma valid_percentage_between_0_and_100_witness :
  ∃ q, (valid three_token_scores initial_world
          (iterate testing_loader four_examples)).1 = Ok q ∧ (q <= 100)%Q.
Proof.
  destruct (valid_percentage_between_0_and_100 three_token_scores 3 initial_world
              (iterate testing_loader four_examples)) as (q & Hq & _ & Hle).
  - lia.
  - discriminate.
  - apply token_scores_matrix_outputs; [lia|reflexivity|].
    intros b Hb. vm_compute in Hb.
    repeat (apply elem_of_cons in Hb as [->|Hb]; [simpl; lia|]).
    by apply elem_of_nil in Hb.
  - exists q. split; [exact Hq|exact Hle].
Defined.

Lemma total_examples_collate (l : list (list Example)) :
  total_examples (collate <$> l) = length (concat l).
Proof.
  induction l as [|b l IH]; [done|]. unfold total_examples in *.
  rewrite !fmap_cons, concat_cons, length_app. cbn [sum_list sum_list_with].
  rewrite <- IH. simpl. by rewrite length_fmap.
Qed.

Section TestLoader.
Context {W O : Type}.
Variable forward : W → bool → Batch → Tensor.
Variable L : nat.
Hypothesis L_tokens : 2 ≤ L.
Hypothesis forward_shape_token_scores :
  ∀ ws tr b, shape (forward ws tr b) = [length (targets b); L; 1].

(** X15: with the network's one score per token and the test loader's
    batches of two, a test set with an odd number of examples makes [valid]
    raise [IndexError]: its last batch holds a single example. *)
Theorem valid_raises_on_odd_test_set (w : World W O) (exs : list Example) :
  length exs mod 2 = 1 →
  (valid forward w (iterate testing_loader exs)).1 = Raise IndexError.
Proof.
  intros Hodd. unfold valid. simpl.
  rewrite (valid_loop_one_example_batch forward _ _ L 0 0 L_tokens
             forward_shape_token_scores); [done|].
  unfold iterate. rewrite testing_loader_batch_size.
  destruct (batches_from_remainder 2 [] exs ltac:(simpl; lia)) as [_ H1].
  change (length (@nil Example) + length exs) with (length exs) in H1.
  rewrite Hodd in H1. destruct H1 as (front & b & -> & _ & Hl); [lia|].
  exists (collate b). split.
  - rewrite fmap_app. apply elem_of_app. right. apply list_elem_of_here.
  - simpl. by rewrite length_fmap.
Qed.

(** X16: on a test set with an even, non-zero number of examples [valid]
    returns a hundred times the number of examples whose highest-scored token
    position equals their target, divided by the number of examples. *)
Theorem valid_returns_on_even_test_set (w : World W O) (exs : list Example) :
  exs ≠ [] → length exs mod 2 = 0 →
  (valid forward w (iterate testing_loader exs)).1 =
  Ok (inject_Z (Z.of_nat (correct_examples forward (weights w) L
                            (iterate testing_loader exs)) * 100)
      / inject_Z (Z.of_nat (length exs)))%Q.
Proof.
  intros Hne Heven.
  assert (matrix_outputs forward (weights w) L (iterate testing_loader exs)) as Hm.
  { apply token_scores_matrix_outputs; [done|done|].
    unfold iterate. rewrite testing_loader_batch_size.
    destruct (batches_from_remainder 2 [] exs ltac:(simpl; lia)) as [H0 _].
    change (length (@nil Example) + length exs) with (length exs) in H0.
    specialize (H0 Heven).
    intros b Hb. apply list_elem_of_fmap in Hb as (l & -> & Hl).
    rewrite Forall_forall in H0. specialize (H0 l Hl).
    change (targets (collate l)) with ((λ e : Example, e.2) <$> l).
    rewrite length_fmap, H0. done. }
  assert (total_examples (iterate testing_loader exs) = length exs) as Ht.
  { unfold iterate. rewrite total_examples_collate, batches_from_concat. done. }
  unfold valid. simpl.
  rewrite (valid_loop_counts forward L ltac:(lia)) by done. simpl.
  unfold percentage. rewrite decide_False.
  - by rewrite Ht.
  - rewrite Ht. by destruct exs.
Qed.

End TestLoader.

Lemma valid_raises_on_odd_test_set_witness :
  (valid three_token_scores initial_world (iterate testing_loader three_examples)).1
  = Raise IndexError.
Proof.
  apply (valid_raises_on_odd_test_set three_token_scores 3).
  - lia.
  - intros ws tr b. reflexivity.
  - reflexivity.
Defined.

Lemma valid_returns_on_even_test_set_witness :
  ∃ q, (valid three_token_scores initial_world
          (iterate testing_loader four_examples)).1 = Ok q.
Proof.
  eexists.
  apply (valid_returns_on_even_test_set three_token_scores 3).
  - lia.
  - intros ws tr b. reflexivity.
  - discriminate.
  - reflexivity.
Defined.

(** ** The whitespace of a title *)

Section TextProperties.
Context {Char : Type}.
Variable isspace : Char → bool.
Variable space : Char.
Hypothesis space_isspace : isspace space = true.

Implicit Types (s cur w : list Char) (ws : list (list Char)).

Lemma split_from_words cur s :
  Forall (λ c, isspace c = false) cur →
  Forall (λ w, w ≠ [] ∧ Forall (λ c, isspace c = false) w) (split_from isspace cur s).
Proof.
  revert cur. induction s as [|c s IH]; intros cur Hcur.
  - destruct cur as [|a cur]; [constructor|]. repeat constructor.
    + intros H. apply (f_equal length) in H. rewrite length_reverse in H. done.
    + by apply Forall_reverse.
  - cbn [split_from]. destruct (isspace c) eqn:Ec.
    + destruct cur as [|a cur]; [by apply IH|]. constructor; [|by apply IH]. split.
      * intros H. apply (f_equal length) in H. rewrite length_reverse in H. done.
      * by apply Forall_reverse.
    + apply IH. by constructor.
Qed.

Lemma split_from_word w cur s :
  Forall (λ c, isspace c = false) w →
  split_from isspace cur (w ++ s) = split_from isspace (reverse w ++ cur) s.
Proof.
  revert cur. induction w as [|c w IH]; intros cur Hw; [done|].
  apply Forall_cons in Hw as [Hc Hw]. simpl. rewrite Hc.
  rewrite IH by done. by rewrite reverse_cons, <- app_assoc.
Qed.

Lemma split_join ws :
  Forall (λ w, w ≠ [] ∧ Forall (λ c, isspace c = false) w) ws →
  split isspace (join [space] ws) = ws.
Proof.
  unfold split. induction 1 as [|w ws [Hne Hw] Hws IH]; [done|].
  destruct ws as [|w' ws].
  - simpl. rewrite <- (app_nil_r w) at 1. rewrite split_from_word by done.
    rewrite app_nil_r. simpl. destruct (reverse w) eqn:E.
    + apply (f_equal length) in E. rewrite length_reverse in E.
      destruct w; [done|discriminate].
    + by rewrite <- E, reverse_involutive.
  - change (join [space] (w :: w' :: ws)) with (w ++ space :: join [space] (w' :: ws)).
    rewrite split_from_word by done. rewrite app_nil_r. cbn [split_from].
    rewrite space_isspace. rewrite IH. destruct (reverse w) eqn:E.
    + apply (f_equal length) in E. rewrite length_reverse in E.
      destruct w; [done|discriminate].
    + by rewrite <- E, reverse_involutive.
Qed.

(** X17: splitting a normalized title gives the words of the title, so
    normalizing a title twice is normalizing it once. *)
Theorem normalize_title_idempotent (title : list Char) :
  split isspace (normalize_title isspace space title) = split isspace title ∧
  normalize_title isspace space (normalize_title isspace space title)
  = normalize_title isspace space title.
Proof.
  assert (split isspace (normalize_title isspace space title) = split isspace title) as H.
  { unfold normalize_title. apply split_join. apply split_from_words. constructor. }
  split; [exact H|]. unfold normalize_title at 1. by rewrite H.
Qed.

Lemma split_from_concat cur s :
  concat (split_from isspace cur s)
  = reverse cur ++ filter (λ c, isspace c = false) s.
Proof.
  revert cur. induction s as [|c s IH]; intros cur.
  - destruct cur; [done|]. simpl. by rewrite !app_nil_r.
  - cbn [split_from]. rewrite filter_cons. destruct (isspace c) eqn:Ec.
    + rewrite decide_False by done.
      destruct cur as [|a cur]; [by rewrite IH|].
      rewrite concat_cons, IH. done.
    + rewrite decide_True by done. rewrite IH.
      by rewrite reverse_cons, <- app_assoc.
Qed.

Lemma filter_join ws :
  Forall (λ w, w ≠ [] ∧ Forall (λ c, isspace c = false) w) ws →
  filter (λ c, isspace c = false) (join [space] ws) = concat ws.
Proof.
  assert (∀ w, Forall (λ c, isspace c = false) w →
               filter (λ c, isspace c = false) w = w) as Hw.
  { induction 1 as [|c w Hc _ IH]; [done|].
    rewrite filter_cons, decide_True by done. by rewrite IH. }
  induction 1 as [|w ws [_ Hgood] _ IH]; [done|].
  destruct ws as [|w' ws].
  - simpl. rewrite app_nil_r. by apply Hw.
  - change (join [space] (w :: w' :: ws)) with (w ++ space :: join [space] (w' :: ws)).
    rewrite filter_app, filter_cons, decide_False by (by rewrite space_isspace).
    rewrite IH, Hw by done. done.
Qed.

Lemma join_length_le cur s :
  length (join [space] (split_from isspace cur s)) ≤ length cur + length s.
Proof.
  revert cur. induction s as [|c s IH]; intros cur.
  - destruct cur; [simpl; lia|]. simpl. rewrite length_reverse. simpl. lia.
  - cbn [split_from]. destruct (isspace c).
    + destruct cur as [|a cur].
      * specialize (IH []). simpl in *. lia.
      * specialize (IH []). simpl in IH.
        destruct (split_from isspace [] s) as [|w ws] eqn:E.
        -- simpl. rewrite length_reverse. simpl. lia.
        -- change (join [space] (reverse (a :: cur) :: w :: ws))
             with (reverse (a :: cur) ++ space :: join [space] (w :: ws)).
           rewrite length_app, length_reverse. simpl in *. lia.
    + specialize (IH (c :: cur)). simpl in *. lia.
Qed.

(** X18: normalizing a title keeps its characters that are not whitespace,
    all of them and in their order, and never makes the title longer; the
    first and the last character of the result are not whitespace. *)
Theorem normalize_title_keeps_text (title : list Char) :
  filter (λ c, isspace c = false) (normalize_title isspace space title)
  = filter (λ c, isspace c = false) title ∧
  length (normalize_title isspace space title) ≤ length title ∧
  (∀ c, head (normalize_title isspace space title) = Some c → isspace c = false) ∧
  (∀ c, last (normalize_title isspace space title) = Some c → isspace c = false).
Proof.
  pose proof (split_from_words [] title ltac:(constructor)) as Hwords.
  fold (split isspace title) in Hwords.
  split_and!.
  - unfold normalize_title. rewrite filter_join by done.
    unfold split. by rewrite split_from_concat.
  - apply (join_length_le [] title).
  - unfold normalize_title. intros c.
    destruct Hwords as [|w ws [Hne Hw] _]; [done|].
    destruct w as [|a w]; [done|]. apply Forall_cons in Hw as [Ha _].
    destruct ws; simpl; intros [= <-]; done.
  - unfold normalize_title. intros c.
    induction Hwords as [|w ws [Hne Hw] Hws IH]; [done|].
    destruct ws as [|w' ws].
    + simpl. intros Hl. rewrite Forall_forall in Hw. apply Hw.
      rewrite last_Some in Hl. destruct Hl as [l' ->]. set_solver.
    + change (join [space] (w :: w' :: ws)) with (w ++ space :: join [space] (w' :: ws)).
      rewrite last_app. rewrite last_cons.
      destruct (last (join [space] (w' :: ws))) as [z|] eqn:El.
      * intros [= <-]. by apply IH.
      * exfalso. apply last_None in El. apply Forall_cons in Hws as [[Hne' _] _].
        destruct w' as [|b w']; [done|]. destruct ws; discriminate El.
Qed.

(** X19: a title is normalized to the empty title exactly when it holds
    nothing but whitespace. *)
Theorem normalize_title_blank (title : list Char) :
  Forall (λ c, isspace c = true) title ↔ normalize_title isspace space title = [].
Proof.
  split.
  - intros Hall. unfold normalize_title.
    assert (split isspace title = []) as ->; [|done].
    unfold split. induction Hall as [|c s Hc _ IH]; [done|]. simpl. by rewrite Hc.
  - intros Hn.
    assert (filter (λ c, isspace c = false) title = []) as Hf.
    { pose proof (split_from_words [] title ltac:(constructor)) as Hwords.
      fold (split isspace title) in Hwords.
      rewrite <- (app_nil_l (filter _ title)).
      change (@nil Char) with (reverse (@nil Char)) at 1.
      rewrite <- split_from_concat. fold (split isspace title).
      rewrite <- filter_join by done. fold (normalize_title isspace space title).
      by rewrite Hn. }
    apply Forall_forall. intros c Hc.
    destruct (isspace c) eqn:E; [done|].
    assert (c ∈ filter (λ c, isspace c = false) title) as Hin
      by (by apply list_elem_of_filter).
    rewrite Hf in Hin. by apply elem_of_nil in Hin.
Qed.

End TextProperties.

Lemma normalize_title_idempotent_witness :
  normalize_title ascii_isspace ascii_space
    (normalize_title ascii_isspace ascii_space (String.list_ascii_of_string "  Fed   holds rates "))
  = String.list_ascii_of_string "Fed holds rates".
Proof.
  destruct (normalize_title_idempotent ascii_isspace ascii_space eq_refl
              (String.list_ascii_of_string "  Fed   holds rates ")) as [_ H].
  rewrite H. reflexivity.
Defined.

Lemma normalize_title_keeps_text_witness :
  length (normalize_title ascii_isspace ascii_space
            (String.list_ascii_of_string "  Fed   holds rates ")) ≤ 20.
Proof.
  destruct (normalize_title_keeps_text ascii_isspace ascii_space eq_refl
              (String.list_ascii_of_string "  Fed   holds rates ")) as (_ & H & _).
  exact H.
Defined.

Lemma normalize_title_blank_witness :
  normalize_title ascii_isspace ascii_space (String.list_ascii_of_string "   ") = [].
Proof.
  apply (normalize_title_blank ascii_isspace ascii_space eq_refl).
  repeat constructor.
Defined.

(** ** Items of the dataset *)

Section TriageProperties.
Context {Char : Type}.
Variable isspace : Char → bool.
Variable space : Char.
Implicit Types (df : DataFrame (list Char * nat)) (rows : list (list Char * nat)).

Lemma loc_range_index rows (i : nat) :
  Triage.loc (range_index rows) i =
  match rows !! i with
  | Some r => Ok r
  | None => Raise (KeyErrorIndex i)
  end.
Proof.
  unfold Triage.loc.
  destruct (list_find _ _) as [[j row]|] eqn:E.
  - apply list_find_Some in E as (Hj & Hrow & _).
    unfold range_index in Hj. rewrite list_lookup_imap in Hj.
    destruct (rows !! j) as [r|] eqn:Er; [|done].
    simpl in Hj. injection Hj as <-. simpl in Hrow. subst j. by rewrite Er.
  - apply list_find_None in E.
    destruct (rows !! i) as [r|] eqn:Er; [|done].
    exfalso. rewrite Forall_forall in E. apply (E (i, r)); [|done].
    apply list_elem_of_lookup. exists i.
    unfold range_index. rewrite list_lookup_imap, Er. done.
Qed.

(** X20: over a dataframe that has been re-indexed, as both datasets of the
    script are, every index below [__len__] has an item: the tokenizer's
    output for the normalized title of the row at that position and the
    row's encoded category as target; an index from [__len__] on raises
    [KeyError]. *)
Theorem Triage_getitem_reindexed df (tok : list Char → nat → list Z * list Z)
    (m i : nat) :
  Triage.__len__ (Triage.__init__ (reset_index df) tok m) = length df ∧
  (∀ title cat, values df !! i = Some (title, cat) →
     Triage.__getitem__ isspace space (Triage.__init__ (reset_index df) tok m) i
     = Ok ((tok (normalize_title isspace space title) m).1,
           (tok (normalize_title isspace space title) m).2, Z.of_nat cat)) ∧
  (i < length df →
     ∃ e, Triage.__getitem__ isspace space (Triage.__init__ (reset_index df) tok m) i
          = Ok e) ∧
  (length df ≤ i →
     Triage.__getitem__ isspace space (Triage.__init__ (reset_index df) tok m) i
     = Raise (KeyErrorIndex i)).
Proof.
  assert (length (values df) = length df) as Hlen.
  { unfold values. apply length_fmap. }
  split_and!.
  - unfold Triage.__len__, Triage.__init__, reset_index, range_index. simpl.
    by rewrite length_imap.
  - intros title cat Hi. unfold Triage.__getitem__, Triage.__init__, reset_index.
    simpl. rewrite loc_range_index, Hi. done.
  - intros Hlt. rewrite <- Hlen in Hlt.
    destruct (lookup_lt_is_Some_2 _ _ Hlt) as [[title cat] Hi].
    unfold Triage.__getitem__, Triage.__init__, reset_index.
    simpl. rewrite loc_range_index, Hi. simpl. eauto.
  - intros Hge. rewrite <- Hlen in Hge. apply lookup_ge_None in Hge.
    unfold Triage.__getitem__, Triage.__init__, reset_index.
    simpl. rewrite loc_range_index, Hge. done.
Qed.

(** X21: an item is looked up by index label, not by position: an index
    that is not a label of the dataframe raises [KeyError], also when it is
    below [__len__], which is why the datasets are re-indexed. *)
Theorem Triage_getitem_by_label df (tok : list Char → nat → list Z * list Z)
    (m i : nat) :
  i ∉ index df →
  Triage.__getitem__ isspace space (Triage.__init__ df tok m) i
  = Raise (KeyErrorIndex i).
Proof.
  intros Hi. unfold Triage.__getitem__, Triage.__init__, Triage.loc. simpl.
  destruct (list_find _ _) as [[j row]|] eqn:E; [|done].
  apply list_find_Some in E as (Hj & Hrow & _).
  exfalso. apply Hi. unfold index. apply list_elem_of_fmap.
  exists row. split; [done|]. by eapply list_elem_of_lookup_2.
Qed.

End TriageProperties.

Lemma Triage_getitem_reindexed_witness :
  Triage.__getitem__ ascii_isspace ascii_space
    (Triage.__init__ (reset_index two_headlines) code_tokenizer MAX_LEN) 0
  = Ok (code_tokenizer (String.list_ascii_of_string "Fed holds rates") MAX_LEN, 2%Z).
Proof.
  destruct (Triage_getitem_reindexed ascii_isspace ascii_space two_headlines
              code_tokenizer MAX_LEN 0) as (_ & H & _).
  rewrite (H (String.list_ascii_of_string "  Fed   holds rates ") 2 eq_refl).
  reflexivity.
Defined.

Lemma Triage_getitem_by_label_witness :
  Triage.__getitem__ ascii_isspace ascii_space
    (Triage.__init__ two_headlines code_tokenizer MAX_LEN) 0
  = Raise (KeyErrorIndex 0).
Proof.
  apply (Triage_getitem_by_label ascii_isspace ascii_space two_headlines).
  apply (bool_decide_unpack _). by vm_compute.
Defined.

(** ** The loader over a dataset *)

Lemma batches_from_fmap {A B} (f : A → B) (bs : nat) (cur xs : list A) :
  batches_from bs (f <$> cur) (f <$> xs)
  = (λ l : list A, f <$> l) <$> batches_from bs cur xs.
Proof.
  revert cur. induction xs as [|x xs IH]; intros cur.
  - destruct cur as [|c cur]; [done|]. simpl.
    rewrite reverse_cons, <- fmap_reverse, <- (fmap_app f _ [c]).
    by rewrite <- reverse_cons.
  - rewrite fmap_cons. cbn [batches_from].
    assert (length (f x :: (f <$> cur)) = length (x :: cur)) as ->
      by (simpl; by rewrite length_fmap).
    case_decide.
    + rewrite fmap_cons. rewrite <- (fmap_cons f x cur), fmap_reverse.
      f_equal. apply (IH []).
    + apply (IH (x :: cur)).
Qed.

Lemma apply_series_total {A B} (f : A → result B) (g : A → B) (xs : list A) :
  Forall (λ x, f x = Ok (g x)) xs → apply_series f xs = Ok (g <$> xs).
Proof.
  induction 1 as [|x xs Hx _ IH]; [done|]. simpl. by rewrite Hx, IH.
Qed.

Lemma same_length_all (m : nat) (ls : list (list Z)) :
  Forall (λ l, length l = m) ls → same_length ls = true.
Proof.
  destruct 1 as [|l ls Hl Hls]; [done|]. simpl.
  induction Hls as [|x xs Hx _ IH]; [done|]. simpl.
  rewrite IH, Hx, Hl. by rewrite Nat.eqb_refl.
Qed.

Section LoaderProperties.
Context {Char : Type}.
Variable isspace : Char → bool.
Variable space : Char.

(** X22: over a re-indexed dataset whose tokenizer pads or cuts every text
    to [max_len] tokens, whatever order below [__len__] the sampler gives, no
    batch raises: the loader yields the batches of the items in that order,
    one item per index. *)
Theorem DataLoader_iter_reindexed (dl : DataLoader)
    (df : DataFrame (list Char * nat)) (tok : list Char → nat → list Z * list Z)
    (m : nat) (order : list nat) :
  (∀ text, length (tok text m).1 = m ∧ length (tok text m).2 = m) →
  Forall (λ i, i < length df) order →
  ∃ exs, apply_series
           (Triage.__getitem__ isspace space (Triage.__init__ (reset_index df) tok m))
           order = Ok exs ∧
         length exs = length order ∧
         DataLoader_iter isspace space dl (Triage.__init__ (reset_index df) tok m) order
         = Ok <$> iterate dl exs.
Proof.
  intros Hpad Horder.
  set (ds := Triage.__init__ (reset_index df) tok m).
  set (g := λ i, match Triage.__getitem__ isspace space ds i with
                 | Ok e => e
                 | Raise _ => ([], [], 0%Z)
                 end).
  assert (∀ i, i < length df →
               Triage.__getitem__ isspace space ds i = Ok (g i) ∧
               length (g i).1.1 = m ∧ length (g i).1.2 = m) as Hg.
  { intros i Hi. unfold g.
    assert (length (values df) = length df) as Hlen by apply length_fmap.
    rewrite <- Hlen in Hi.
    destruct (lookup_lt_is_Some_2 _ _ Hi) as [[title cat] Hrow].
    unfold ds, Triage.__getitem__, Triage.__init__, reset_index. simpl.
    rewrite loc_range_index, Hrow. simpl.
    destruct (Hpad (normalize_title isspace space title)) as [H1 H2]. done. }
  exists (g <$> order). split_and!.
  - apply apply_series_total. eapply Forall_impl; [exact Horder|].
    intros i Hi. by apply Hg.
  - apply length_fmap.
  - unfold DataLoader_iter, iterate. fold ds.
    pose proof (batches_from_fmap g (Z.to_nat (batch_size dl)) [] order) as Hb.
    simpl in Hb. rewrite Hb. rewrite <- !list_fmap_compose.
    apply list_fmap_ext. intros k idxs Hk. simpl.
    assert (Forall (λ i, i < length df) idxs) as Hidxs.
    { apply Forall_forall. intros i Hi.
      rewrite Forall_forall in Horder. apply Horder.
      rewrite <- (app_nil_l order). change (@nil nat) with (reverse (@nil nat)).
      rewrite <- (batches_from_concat (Z.to_nat (batch_size dl)) [] order).
      apply list_elem_of_In, in_concat. exists idxs.
      split; apply list_elem_of_In; [by eapply list_elem_of_lookup_2|done]. }
    rewrite (apply_series_total _ g).
    + simpl. unfold collate_checked.
      rewrite (same_length_all m), (same_length_all m); [done| |].
      * apply Forall_fmap, Forall_fmap. eapply Forall_impl; [exact Hidxs|].
        intros i Hi. simpl. by apply Hg.
      * apply Forall_fmap, Forall_fmap. eapply Forall_impl; [exact Hidxs|].
        intros i Hi. simpl. by apply Hg.
    + eapply Forall_impl; [exact Hidxs|]. intros i Hi. by apply Hg.
Qed.

End LoaderProperties.

Lemma DataLoader_iter_reindexed_witness :
  ∃ exs, length exs = 2 ∧
         DataLoader_iter ascii_isspace ascii_space testing_loader
           (Triage.__init__ (reset_index two_headlines) padded_code_tokenizer 16) [1; 0]
         = Ok <$> iterate testing_loader exs.
Proof.
  destruct (DataLoader_iter_reindexed ascii_isspace ascii_space testing_loader
              two_headlines padded_code_tokenizer 16 [1; 0]) as (exs & _ & Hl & Hi).
  - intros text. unfold padded_code_tokenizer. cbn [fst snd].
    rewrite !length_take, !length_app, !length_replicate. lia.
  - repeat constructor.
  - exists exs. split; [exact Hl|exact Hi].
Defined.

(** Items of different lengths cannot be stacked: with a tokenizer that does
    not pad, the batch of the two headlines raises. *)
Example DataLoader_iter_unequal_lengths :
  DataLoader_iter ascii_isspace ascii_space testing_loader
    (Triage.__init__ (reset_index two_headlines) code_tokenizer MAX_LEN) [1; 0]
  = [Raise RuntimeError].
Proof. reflexivity. Qed.

(** ** The training loop *)

Section TrainProperties.
Context {W O : Type}.
Variable forward : W → bool → Batch → Tensor.
Variable loss_backward : W → Tensor → list Z → result W.
Variable adam_step : O → W → W → O * W.

Lemma train_loop_frame (w : World W O) (loader : list Batch) :
  training (train_loop forward loss_backward adam_step w loader).2 = training w ∧
  grad_enabled (train_loop forward loss_backward adam_step w loader).2 = grad_enabled w ∧
  ((train_loop forward loss_backward adam_step w loader).1 ≠ Ok () →
     grad (train_loop forward loss_backward adam_step w loader).2 = None).
Proof.
  revert w. induction loader as [|b loader IH]; intros w.
  - simpl. split_and!; done.
  - cbn [train_loop].
    destruct (loss_backward _ _ _) as [g|e].
    + destruct (adam_step _ _ _) as [o ws].
      match goal with |- context [train_loop _ _ _ ?w' loader] =>
        destruct (IH w') as (Ht & Hg & Hr) end.
      simpl in Ht, Hg. split_and!; done.
    + simpl. split_and!; done.
Qed.

Lemma train_loop_app_inv (w : World W O) (l1 l2 : list Batch) :
  (train_loop forward loss_backward adam_step w (l1 ++ l2)).1 = Ok () →
  (train_loop forward loss_backward adam_step w l1).1 = Ok () ∧
  train_loop forward loss_backward adam_step w (l1 ++ l2)
  = train_loop forward loss_backward adam_step
      (train_loop forward loss_backward adam_step w l1).2 l2.
Proof.
  revert w. induction l1 as [|b l1 IH]; intros w Hok; [done|].
  cbn [train_loop app] in *.
  destruct (loss_backward _ _ _) as [g|e]; [|done].
  destruct (adam_step _ _ _) as [o ws].
  by apply IH.
Qed.

(** X24: whatever the loader, [train] leaves the model in training mode and
    the gradient mode as it was; when a loss raises, the exception leaves the
    loop with the gradients cleared; when the loop ends, its last batch was
    processed in the state that the batches before it left: the gradients in
    place are those of the loss on the last batch, and the parameters and the
    optimizer state are those of the step taken with these gradients; on an
    empty loader nothing but the mode changes. *)
Theorem train_mode_and_gradients (w : World W O) (loader : list Batch) :
  training (train forward loss_backward adam_step w loader).2 = true ∧
  grad_enabled (train forward loss_backward adam_step w loader).2 = grad_enabled w ∧
  ((train forward loss_backward adam_step w loader).1 ≠ Ok () →
     grad (train forward loss_backward adam_step w loader).2 = None) ∧
  (∀ front b,
     loader = front ++ [b] →
     (train forward loss_backward adam_step w loader).1 = Ok () →
     ∃ g, (train forward loss_backward adam_step w front).1 = Ok () ∧
          loss_backward
            (weights (train forward loss_backward adam_step w front).2)
            (squeeze (forward
                        (weights (train forward loss_backward adam_step w front).2)
                        true b))
            (targets b) = Ok g ∧
          grad (train forward loss_backward adam_step w loader).2 = Some g ∧
          (opt_state (train forward loss_backward adam_step w loader).2,
           weights (train forward loss_backward adam_step w loader).2)
          = adam_step
              (opt_state (train forward loss_backward adam_step w front).2)
              (weights (train forward loss_backward adam_step w front).2) g) ∧
  (loader = [] →
     weights (train forward loss_backward adam_step w loader).2 = weights w ∧
     grad (train forward loss_backward adam_step w loader).2 = grad w ∧
     opt_state (train forward loss_backward adam_step w loader).2 = opt_state w).
Proof.
  unfold train.
  match goal with |- context [train_loop _ _ _ ?w' loader] =>
    destruct (train_loop_frame w' loader) as (Ht & Hg & Hr); set (wt := w') in * end.
  split_and!; try done.
  - intros front b -> Hok.
    destruct (train_loop_app_inv wt front [b] Hok) as [Hfront Happ].
    rewrite Happ in Hok. rewrite Happ. clear Happ.
    destruct (train_loop_frame wt front) as (Htf & _ & _).
    change (training wt) with true in Htf.
    cbn [train_loop] in Hok |- *. rewrite Htf in Hok |- *.
    destruct (loss_backward _ _ _) as [g|e]; [|done].
    destruct (adam_step _ _ _) as [o ws] eqn:Es.
    exists g. split_and!; done.
  - intros ->. simpl. done.
Qed.

(** X25: the optimizer steps once per batch, in the order of the loader:
    training over two loaders one after the other, the first without an
    exception, is training over their concatenation. *)
Theorem train_loop_app (w : World W O) (loader1 loader2 : list Batch) :
  (train_loop forward loss_backward adam_step w loader1).1 = Ok () →
  train_loop forward loss_backward adam_step w (loader1 ++ loader2)
  = train_loop forward loss_backward adam_step
      (train_loop forward loss_backward adam_step w loader1).2 loader2.
Proof.
  revert w. induction loader1 as [|b loader1 IH]; intros w Hok; [done|].
  cbn [train_loop app] in *.
  destruct (loss_backward _ _ _) as [g|e]; [|done].
  destruct (adam_step _ _ _) as [o ws].
  by apply IH.
Qed.

End TrainProperties.

Lemma train_mode_and_gradients_witness :
  grad (train three_token_scores toy_loss_backward toy_step initial_world
          (iterate testing_loader four_examples)).2 = Some (2, 0, 0)%Z ∧
  weights (train three_token_scores toy_loss_backward toy_step initial_world
             (iterate testing_loader four_examples)).2 = (-4, 5, 2)%Z ∧
  grad (train three_token_scores (λ _ _ _, Raise RuntimeError) toy_step
          initial_world (iterate testing_loader four_examples)).2 = None.
Proof.
  destruct (train_mode_and_gradients three_token_scores toy_loss_backward toy_step
              initial_world (iterate testing_loader four_examples))
    as (_ & _ & _ & Hlast & _).
  destruct (Hlast (iterate testing_loader (take 2 four_examples))
              (collate (drop 2 four_examples)) eq_refl eq_refl)
    as (g & _ & Hg & Hgrad & Hstep).
  injection Hg as <-.
  destruct (train_mode_and_gradients three_token_scores
              (λ _ _ _, Raise RuntimeError) toy_step
              initial_world (iterate testing_loader four_examples))
    as (_ & _ & Hraise & _).
  split_and!.
  - exact Hgrad.
  - exact (f_equal snd Hstep).
  - apply Hraise. discriminate.
Defined.

Lemma train_loop_app_witness :
  weights (train_loop three_token_scores (λ ws _ _, Ok ws)
             (λ o ws g, (o, (ws.1.1 + 1, ws.1.2, ws.2)%Z))
             initial_world
             (iterate testing_loader four_examples ++ iterate testing_loader four_examples)).2
  = (5, 5, 2)%Z.
Proof.
  rewrite (train_loop_app three_token_scores (λ ws _ _, Ok ws)
             (λ (o : unit) (ws g : Z * Z * Z), (o, (ws.1.1 + 1, ws.1.2, ws.2)%Z))
             initial_world (iterate testing_loader four_examples)
             (iterate testing_loader four_examples)); reflexivity.
Defined.

(** ** Runs of the script *)

Section RunProperties.
Context {Char W O : Type}.
Variable isspace : Char → bool.
Variable space : Char.
Variable tok : list Char → nat → list Z * list Z.
Variable forward : W → bool → Batch → Tensor.
Variable loss_backward : W → Tensor → list Z → result W.
Variable adam_step : O → W → W → O * W.

Implicit Types (rows : list (list Char * string)) (order test_order : list nat)
  (train_orders : nat → list nat) (w : World W O).





(** X23: on a corpus of one or two rows with known category codes the test
    dataset is empty, the creation of its loader raises [ValueError] (a
    shuffling loader refuses an empty dataset), and the run ends there:
    nothing is trained, validated or saved.  From three rows on the test
    dataset has a row and the preparation goes through. *)
Theorem run_script_tiny_corpus rows order train_orders test_order w :
  Forall (λ row, row.2 ∈ ["e"; "b"; "t"; "m"]) rows →
  order ≡ₚ seq 0 (length rows) →
  (1 ≤ length rows ≤ 2 →
     run_script isspace space tok forward loss_backward adam_step
       rows order train_orders test_order w
     = (Raise ValueError, calls_read ++ calls_tokenizer ++ calls_sizes, w)) ∧
  (3 ≤ length rows →
     ∃ p, (prepare tok rows order).1 = Ok p ∧
          Triage.__len__ (training_set p) = sample_count train_size (length rows) ∧
          Triage.__len__ (testing_set p)
          = length rows - sample_count train_size (length rows) ∧
          1 ≤ Triage.__len__ (testing_set p)).
Proof.
  intros Hcodes Hp.
  destruct (apply_series_ok update_cat rows.*2) as (names & Hnames & Hlen).
  { intros c Hc. apply list_elem_of_fmap in Hc as (row & -> & Hrow).
    rewrite Forall_forall in Hcodes.
    destruct (update_cat_known row.2 (Hcodes row Hrow)) as (name & _ & ->). eauto. }
  rewrite length_fmap in Hlen.
  set (l := zip rows.*1 (apply_encode_cat names encode_dict).1).
  assert (length l = length rows) as Hl.
  { unfold l. rewrite length_zip_with, apply_encode_cat_length, length_fmap. lia. }
  assert (order ≡ₚ seq 0 (length l)) as Hp' by (by rewrite Hl).
  pose proof (test_dataset_tail order l Hp') as Htest.
  pose proof (train_dataset_length order l Hp') as Htrain.
  rewrite Hl in Htest, Htrain.
  destruct (sample_count_bounds (length rows)) as [H1 H2].
  pose proof (sample_count_le (length rows)) as Hle.
  unfold run_script, prepare, apply_update_cat in *. rewrite Hnames. fold l.
  rewrite Htest.
  unfold DataLoader_new, Triage.__len__, Triage.__init__. cbn [Triage.len].
  rewrite Htrain.
  assert (length (range_index (drop (sample_count train_size (length rows)) l))
          = length rows - sample_count train_size (length rows)) as Hte.
  { unfold range_index. rewrite length_imap, length_drop. lia. }
  rewrite Hte.
  change (shuffle (DataLoader_init train_params)) with true.
  change (shuffle (DataLoader_init test_params)) with true.
  split.
  - intros Hn.
    destruct (Nat.eqb_spec (sample_count train_size (length rows)) 0) as [E|E]; [lia|].
    destruct (Nat.eqb_spec (length rows - sample_count train_size (length rows)) 0)
      as [E'|E']; [|lia].
    reflexivity.
  - intros Hn.
    destruct (Nat.eqb_spec (sample_count train_size (length rows)) 0) as [E|E]; [lia|].
    destruct (Nat.eqb_spec (length rows - sample_count train_size (length rows)) 0)
      as [E'|E']; [lia|].
    eexists. split; [reflexivity|]. simpl. split_and!; [done|done|lia].
Qed.

End RunProperties.

(** C9: on a loader with a batch of a single example, with one score per
    token, [valid] does not return the accuracy but raises [IndexError]; the
    parameters, the gradients and the optimizer state are nevertheless what
    they were, the gradient mode is restored and the model is left in
    evaluation mode. *)
Theorem valid_raises_and_keeps_parameters {W O : Type}
    (forward : W → bool → Batch → Tensor) (w : World W O) (loader : list Batch)
    (L : nat) :
  2 ≤ L →
  (∀ ws tr b, shape (forward ws tr b) = [length (targets b); L; 1]) →
  (∃ b, b ∈ loader ∧ length (targets b) = 1) →
  valid forward w loader
  = (Raise IndexError,
     {| weights := weights w; training := false; grad_enabled := grad_enabled w;
        grad := grad w; opt_state := opt_state w |}).
Proof.
  intros HL Hshape Hone. unfold valid. simpl.
  by rewrite (valid_loop_one_example_batch forward _ loader L 0 0 HL Hshape Hone).
Qed.

Lemma valid_raises_and_keeps_parameters_witness :
  valid three_token_scores initial_world (iterate testing_loader three_examples)
  = (Raise IndexError,
     {| weights := (1, 5, 2)%Z; training := false; grad_enabled := true;
        grad := None; opt_state := () |}).
Proof.
  apply (valid_raises_and_keeps_parameters three_token_scores initial_world _ 3).
  - lia.
  - intros ws tr b. reflexivity.
  - exists (collate [([101; 9; 102], [1; 1; 1], 1)]%Z). split; [|reflexivity].
    apply list_elem_of_further, list_elem_of_here.
Defined.





Lemma run_script_tiny_corpus_witness :
  run_toy (take 2 corpus_ten) [1; 0]
  = (Raise ValueError, calls_read ++ calls_tokenizer ++ calls_sizes, initial_world).
Proof.
  destruct (run_script_tiny_corpus ascii_isspace ascii_space
              padded_code_tokenizer three_token_scores toy_loss_backward toy_step
              (take 2 corpus_ten) [1; 0]
              (λ _, seq 0 (sample_count train_size (length (take 2 corpus_ten))))
              (seq 0 (length (take 2 corpus_ten)
                      - sample_count train_size (length (take 2 corpus_ten))))
              initial_world) as [H _].
  - repeat (apply Forall_cons; split; [simpl; set_solver|]). apply Forall_nil_2.
  - apply (bool_decide_unpack _). by vm_compute.
  - apply H. simpl. lia.
Defined.
